(** * Verification of the log-processor IP scanner (src/log-processor/app.py)

    A shallow embedding of [IPProcessor] and [main]: Python strings are lists
    of code points, exceptions are values of a result type, the mutable
    object state, the MongoDB collections and the logging stream are fields
    of an explicit state threaded through a state-and-exception monad, and
    everything outside the program (the file system, the database driver,
    signals) is an environment record the functions read. *)

From Stdlib Require Import ZArith NArith List String Ascii Lia Bool.
From stdpp Require Import base decidable countable gmap list.
Import ListNotations.
Local Open Scope Z_scope.

(** ** Python strings *)

(** A [str] is a sequence of Unicode code points. *)
Abbreviation str := (list N) (only parsing).

Definition py (s : string) : str := map N_of_ascii (list_ascii_of_string s).

Definition dot : N := 46.
Definition slash : N := 47.

Definition is_ascii_digit (c : N) : bool := ((48 <=? c) && (c <=? 57))%N.

Definition digit_value (c : N) : Z := Z.of_N c - 48.

(** [int(s, 10)] on a string of ASCII digits. *)
Definition int_base10 (s : str) : Z :=
  fold_left (fun acc c => 10 * acc + digit_value c) s 0.

(** [s.split(sep)] for a one-character separator. *)
Fixpoint split (sep : N) (s : str) : list str :=
  match s with
  | [] => [[]]
  | c :: r =>
      if (c =? sep)%N then [] :: split sep r
      else match split sep r with
           | h :: t => (c :: h) :: t
           | [] => [[c]]
           end
  end.

(** ** Exceptions *)

Inductive exc_class :=
| AddressValueError   (* ipaddress.AddressValueError, a ValueError *)
| NetmaskValueError   (* ipaddress.NetmaskValueError, a ValueError *)
| ValueError
| ConnectionFailure   (* pymongo.errors.ConnectionFailure, a PyMongoError *)
| PyMongoError
| OSError
| RuntimeError.

Inductive exn :=
| Exc (c : exc_class)       (* the subclasses of Exception *)
| KeyboardInterrupt
| SystemExit (code : Z).

Definition is_Exception (e : exn) : bool :=
  match e with Exc _ => true | _ => false end.

Definition is_ValueError (e : exn) : bool :=
  match e with
  | Exc AddressValueError | Exc NetmaskValueError | Exc ValueError => true
  | _ => false
  end.

Definition is_AddressValueError (e : exn) : bool :=
  match e with Exc AddressValueError => true | _ => false end.

Definition is_ConnectionFailure (e : exn) : bool :=
  match e with Exc ConnectionFailure => true | _ => false end.

Definition is_KeyboardInterrupt (e : exn) : bool :=
  match e with KeyboardInterrupt => true | _ => false end.

Inductive result (A : Type) :=
| Ok (a : A)
| Raise (e : exn).
Arguments Ok {A} a.
Arguments Raise {A} e.

Definition rbind {A B} (c : result A) (k : A -> result B) : result B :=
  match c with
  | Ok a => k a
  | Raise e => Raise e
  end.

(** [try: c except <classes>: h]. *)
Definition rtry {A} (c : result A) (catches : exn -> bool) (h : exn -> result A)
  : result A :=
  match c with
  | Ok a => Ok a
  | Raise e => if catches e then h e else Raise e
  end.

Fixpoint rmap {A B} (f : A -> result B) (l : list A) : result (list B) :=
  match l with
  | [] => Ok []
  | x :: r => rbind (f x) (fun y => rbind (rmap f r) (fun ys => Ok (y :: ys)))
  end.

(** ** The [ipaddress] module, as far as the program uses it *)

Module ipaddress.

Definition ALL_ONES : Z := 2 ^ 32 - 1.

(** [IPv4Address._parse_octet] (CPython 3.9.5 and later): decimal digits
    only, at most three of them, no leading zero, value at most 255. *)
Definition parse_octet (octet_str : str) : result Z :=
  match octet_str with
  | [] => Raise (Exc ValueError)
  | c0 :: rest =>
      if negb (forallb is_ascii_digit octet_str) then Raise (Exc ValueError)
      else if (3 <? length octet_str)%nat then Raise (Exc ValueError)
      else if (c0 =? 48)%N && negb (length rest =? 0)%nat
           then Raise (Exc ValueError)
      else let octet_int := int_base10 octet_str in
           if 255 <? octet_int then Raise (Exc ValueError)
           else Ok octet_int
  end.

(** [int.from_bytes(octets, 'big')]. *)
Definition from_bytes_big (l : list Z) : Z :=
  fold_left (fun acc b => acc * 256 + b) l 0.

(** [IPv4Address._ip_int_from_string]. *)
Definition ip_int_from_string (ip_str : str) : result Z :=
  match ip_str with
  | [] => Raise (Exc AddressValueError)
  | _ =>
      let octets := split dot ip_str in
      if negb (length octets =? 4)%nat then Raise (Exc AddressValueError)
      else rtry (rbind (rmap parse_octet octets)
                       (fun bs => Ok (from_bytes_big bs)))
                is_ValueError
                (fun _ => Raise (Exc AddressValueError))
  end.

(** [IPv4Address(address)] for a [str] argument; the value is [_ip]. *)
Definition IPv4Address (address : str) : result Z :=
  if existsb (N.eqb slash) address then Raise (Exc AddressValueError)
  else ip_int_from_string address.

Record network := { network_address : Z; netmask : Z }.

(** [_prefix_from_prefix_string]; the netmask written as a dotted quad,
    which [_make_netmask] tries next, is not among the literals of the
    program and raises here. *)
Definition prefix_from_prefix_string (s : str) : result Z :=
  match s with
  | [] => Raise (Exc NetmaskValueError)
  | _ =>
      if negb (forallb is_ascii_digit s) then Raise (Exc NetmaskValueError)
      else let p := int_base10 s in
           if 32 <? p then Raise (Exc NetmaskValueError) else Ok p
  end.

Definition make_netmask (prefixlen : Z) : Z :=
  Z.lxor ALL_ONES (Z.shiftr ALL_ONES prefixlen).

(** [IPv4Network(address)] with [strict=True]: the text is split at the
    slash, the address is parsed, then the prefix length, and an address
    with host bits set is refused. *)
Definition IPv4Network (address : str) : result network :=
  rbind (match split slash address with
         | [a] => Ok (a, None)
         | [a; m] => Ok (a, Some m)
         | _ => Raise (Exc AddressValueError)
         end)
        (fun '(a, m) =>
           rbind (IPv4Address a) (fun packed =>
           rbind (match m with
                  | None => Ok 32
                  | Some m => prefix_from_prefix_string m
                  end) (fun prefixlen =>
             let mask := make_netmask prefixlen in
             if negb (Z.land packed mask =? packed) then Raise (Exc ValueError)
             else Ok {| network_address := packed; netmask := mask |}))).

(** [ip in network] ([_BaseNetwork.__contains__]). *)
Definition contains (net : network) (ip : Z) : bool :=
  Z.land ip (netmask net) =? network_address net.

End ipaddress.

(** ** [IPProcessor]: validation and classification *)

(** [self.private_ranges], as [__init__] builds it. *)
Definition private_ranges_init : result (list ipaddress.network) :=
  rmap ipaddress.IPv4Network
       [py "10.0.0.0/8"; py "172.16.0.0/12"; py "192.168.0.0/16"].

Definition private_ranges : list ipaddress.network :=
  match private_ranges_init with
  | Ok l => l
  | Raise _ => []
  end.

Definition is_valid_ip (ip_str : str) : result bool :=
  rtry (rbind (ipaddress.IPv4Address ip_str) (fun _ => Ok true))
       is_AddressValueError
       (fun _ => Ok false).

Definition is_private_ip (ip_str : str) : result bool :=
  rtry (rbind (ipaddress.IPv4Address ip_str)
              (fun ip => Ok (existsb (fun network => ipaddress.contains network ip)
                                     private_ranges)))
       is_AddressValueError
       (fun _ => Ok false).

(** ** The world outside the program *)

(** What an external call may raise: some subclass of [Exception], or a
    [KeyboardInterrupt] delivered while the call runs. *)
Inductive fault :=
| FaultExc (c : exc_class)
| FaultInterrupt.

Definition exn_of_fault (f : fault) : exn :=
  match f with
  | FaultExc c => Exc c
  | FaultInterrupt => KeyboardInterrupt
  end.

Record document := { doc_ip : str; doc_type : string; first_seen : option Z }.

Record env := {
  (* the Unicode database beyond ASCII: [str.isalnum] and [str.isspace] *)
  isalnum_non_ascii : N -> bool;
  isspace_non_ascii : N -> bool;
  (* [MongoClient(...)] raises *)
  mongo_client_fault : option fault;
  (* [ping], [get_database] or [create_index] raises *)
  ping_fault : option fault;
  (* [os.path.exists(log_file_path)] *)
  path_exists : bool;
  (* [open(...)] raises *)
  open_fault : option fault;
  (* the lines the file iterator yields, and what ends them: end of file
     ([None]) or an exception raised by the next read *)
  file_lines : list str;
  read_fault : option fault;
  (* the n-th call of [update_one] (from 0) raises *)
  update_one_fault : nat -> option fault;
  (* [count_documents] raises *)
  count_documents_fault : option fault;
  (* the two collections as earlier runs left them *)
  stored_public : list document;
  stored_private : list document
}.

(** ** The state of a run *)

(** [self.stats]. *)
Record Stats := {
  total_lines_processed : Z;
  total_ips_found : Z;
  unique_public_ips_stored : Z;
  unique_private_ips_stored : Z;
  duplicate_ips_skipped : Z;
  within_file_duplicates : Z
}.

Inductive level := INFO | ERROR.

(** The records the program hands to [logger.info] and [logger.error], one
    constructor per call site, with the values its format string prints.
    [logger.debug] is below the configured level and emits nothing. *)
Inductive message :=
| ConnectingToMongoDB
| ConnectedToMongoDB
| FailedToConnect (e : exn)
| UnexpectedConnectError (e : exn)
| ErrorStoringIP (ip : str) (e : exn)
| LogFileNotFound
| StartProcessing
| ProcessedLines (line_num : Z)
| ProcessingCompleted
| ErrorProcessingLogFile (e : exn)
| StatisticsHeader
| TotalLinesProcessed (n : Z)
| TotalIPsFound (n : Z)
| WithinFileDuplicates (n : Z)
| UniqueIPsFromFile (n : Z)
| NewPublicStored (n : Z)
| NewPrivateStored (n : Z)
| DatabaseDuplicatesSkipped (n : Z)
| TotalPublicInDatabase (n : Z)
| TotalPrivateInDatabase (n : Z)
| MathCheckUnique (n : Z)
| MathCheckShouldEqual (n : Z)
| ErrorGettingCounts (e : exn)
| ConnectionClosed
| FailedToConnectExiting
| CompletedSuccessfully
| ProcessingFailed
| InterruptedByUser
| UnexpectedError (e : exn).

Record state := {
  (* [self.client is not None] *)
  client : bool;
  stats : Stats;
  (* the instance attribute [processed_ips] that [print_statistics] looks
     up with [hasattr]; [None] while the object has no such attribute *)
  attr_processed_ips : option (gset (list N));
  (* the documents of the two collections *)
  public_ips_collection : list document;
  private_ips_collection : list document;
  (* the calls of [update_one] made so far: address and [is_private] *)
  update_calls : list (list N * bool);
  (* the occurrences the within-file check has skipped so far *)
  skipped : list (list N);
  (* the logging stream *)
  log : list (level * message)
}.

Definition set_client (b : bool) (st : state) : state :=
  {| client := b; stats := stats st; attr_processed_ips := attr_processed_ips st;
     public_ips_collection := public_ips_collection st;
     private_ips_collection := private_ips_collection st;
     update_calls := update_calls st; skipped := skipped st; log := log st |}.

Definition set_stats (s : Stats) (st : state) : state :=
  {| client := client st; stats := s; attr_processed_ips := attr_processed_ips st;
     public_ips_collection := public_ips_collection st;
     private_ips_collection := private_ips_collection st;
     update_calls := update_calls st; skipped := skipped st; log := log st |}.

Definition set_collection (is_private : bool) (c : list document) (st : state) : state :=
  {| client := client st; stats := stats st; attr_processed_ips := attr_processed_ips st;
     public_ips_collection := if is_private then public_ips_collection st else c;
     private_ips_collection := if is_private then c else private_ips_collection st;
     update_calls := update_calls st; skipped := skipped st; log := log st |}.

Definition add_update_call (ip : str) (is_private : bool) (st : state) : state :=
  {| client := client st; stats := stats st; attr_processed_ips := attr_processed_ips st;
     public_ips_collection := public_ips_collection st;
     private_ips_collection := private_ips_collection st;
     update_calls := update_calls st ++ [(ip, is_private)];
     skipped := skipped st; log := log st |}.

Definition add_skipped (ip : str) (st : state) : state :=
  {| client := client st; stats := stats st; attr_processed_ips := attr_processed_ips st;
     public_ips_collection := public_ips_collection st;
     private_ips_collection := private_ips_collection st;
     update_calls := update_calls st; skipped := skipped st ++ [ip]; log := log st |}.

Definition add_log (l : level) (m : message) (st : state) : state :=
  {| client := client st; stats := stats st; attr_processed_ips := attr_processed_ips st;
     public_ips_collection := public_ips_collection st;
     private_ips_collection := private_ips_collection st;
     update_calls := update_calls st; skipped := skipped st;
     log := log st ++ [(l, m)] |}.

Definition collection_of (is_private : bool) (st : state) : list document :=
  if is_private then private_ips_collection st else public_ips_collection st.

(** The six increments of [self.stats[...] += 1]. *)
Definition incr_total_lines_processed (s : Stats) : Stats :=
  {| total_lines_processed := total_lines_processed s + 1;
     total_ips_found := total_ips_found s;
     unique_public_ips_stored := unique_public_ips_stored s;
     unique_private_ips_stored := unique_private_ips_stored s;
     duplicate_ips_skipped := duplicate_ips_skipped s;
     within_file_duplicates := within_file_duplicates s |}.

Definition incr_total_ips_found (s : Stats) : Stats :=
  {| total_lines_processed := total_lines_processed s;
     total_ips_found := total_ips_found s + 1;
     unique_public_ips_stored := unique_public_ips_stored s;
     unique_private_ips_stored := unique_private_ips_stored s;
     duplicate_ips_skipped := duplicate_ips_skipped s;
     within_file_duplicates := within_file_duplicates s |}.

Definition incr_unique_public_ips_stored (s : Stats) : Stats :=
  {| total_lines_processed := total_lines_processed s;
     total_ips_found := total_ips_found s;
     unique_public_ips_stored := unique_public_ips_stored s + 1;
     unique_private_ips_stored := unique_private_ips_stored s;
     duplicate_ips_skipped := duplicate_ips_skipped s;
     within_file_duplicates := within_file_duplicates s |}.

Definition incr_unique_private_ips_stored (s : Stats) : Stats :=
  {| total_lines_processed := total_lines_processed s;
     total_ips_found := total_ips_found s;
     unique_public_ips_stored := unique_public_ips_stored s;
     unique_private_ips_stored := unique_private_ips_stored s + 1;
     duplicate_ips_skipped := duplicate_ips_skipped s;
     within_file_duplicates := within_file_duplicates s |}.

Definition incr_duplicate_ips_skipped (s : Stats) : Stats :=
  {| total_lines_processed := total_lines_processed s;
     total_ips_found := total_ips_found s;
     unique_public_ips_stored := unique_public_ips_stored s;
     unique_private_ips_stored := unique_private_ips_stored s;
     duplicate_ips_skipped := duplicate_ips_skipped s + 1;
     within_file_duplicates := within_file_duplicates s |}.

Definition incr_within_file_duplicates (s : Stats) : Stats :=
  {| total_lines_processed := total_lines_processed s;
     total_ips_found := total_ips_found s;
     unique_public_ips_stored := unique_public_ips_stored s;
     unique_private_ips_stored := unique_private_ips_stored s;
     duplicate_ips_skipped := duplicate_ips_skipped s;
     within_file_duplicates := within_file_duplicates s + 1 |}.

(** ** Computations: state passing with exceptions *)

Definition M (A : Type) : Type := state -> result A * state.

Definition ret {A} (a : A) : M A := fun st => (Ok a, st).

Definition raise {A} (e : exn) : M A := fun st => (Raise e, st).

Definition bind {A B} (c : M A) (k : A -> M B) : M B :=
  fun st =>
    match c st with
    | (Ok a, st') => k a st'
    | (Raise e, st') => (Raise e, st')
    end.

Declare Scope py_scope.
Delimit Scope py_scope with py.
Notation "x <- c ;; k" := (bind c (fun x => k))
  (at level 100, c at next level, k at level 200, right associativity) : py_scope.
Notation "c ;; k" := (bind c (fun _ => k))
  (at level 100, k at level 200, right associativity) : py_scope.

Definition lift {A} (r : result A) : M A := fun st => (r, st).

Definition modify (f : state -> state) : M unit := fun st => (Ok tt, f st).

Definition gets {A} (f : state -> A) : M A := fun st => (Ok (f st), st).

(** [try: c except ...: ...]: [handler e] is the body of the first clause
    that matches [e], if one does. *)
Definition try_except {A} (c : M A) (handler : exn -> option (M A)) : M A :=
  fun st =>
    match c st with
    | (Ok a, st') => (Ok a, st')
    | (Raise e, st') =>
        match handler e with
        | Some h => h st'
        | None => (Raise e, st')
        end
    end.

(** [try: c finally: f]. *)
Definition try_finally {A} (c : M A) (f : M unit) : M A :=
  fun st =>
    match c st with
    | (r, st') =>
        match f st' with
        | (Ok _, st'') => (r, st'')
        | (Raise e, st'') => (Raise e, st'')
        end
    end.

(** A call that leaves the program: it raises what the world says, or
    returns. *)
Definition external (f : option fault) : M unit :=
  match f with
  | Some x => raise (exn_of_fault x)
  | None => ret tt
  end.

Definition logger_info (m : message) : M unit := modify (add_log INFO m).
Definition logger_error (m : message) : M unit := modify (add_log ERROR m).

Definition incr (f : Stats -> Stats) : M unit :=
  modify (fun st => set_stats (f (stats st)) st).

(** [sys.exit(code)]. *)
Definition sys_exit {A} (code : Z) : M A := raise (SystemExit code).

Section Program.

Variable E : env.

(** ** Extraction *)

Definition is_ascii_alnum (c : N) : bool :=
  (is_ascii_digit c || ((65 <=? c) && (c <=? 90)) || ((97 <=? c) && (c <=? 122)))%N.

(** [\w] of a [str] pattern: alphanumeric in the Unicode database, or [_]. *)
Definition is_word (c : N) : bool :=
  if (c <? 128)%N then is_ascii_alnum c || (c =? 95)%N
  else isalnum_non_ascii E c.

(** [str.isspace] on one character. *)
Definition is_space (c : N) : bool :=
  if (c <? 128)%N
  then (((9 <=? c) && (c <=? 13)) || ((28 <=? c) && (c <=? 32)))%N
  else isspace_non_ascii E c.

Fixpoint lstrip (s : str) : str :=
  match s with
  | c :: r => if is_space c then lstrip r else s
  | [] => []
  end.

Definition strip (s : str) : str := rev (lstrip (rev (lstrip s))).

Definition is_word_opt (c : option N) : bool :=
  match c with Some c => is_word c | None => false end.

(** [\b] between the character before and the character after. *)
Definition word_boundary (prev next : option N) : bool :=
  xorb (is_word_opt prev) (is_word_opt next).

(** [[0-9]{1,n}], greedy: the ways to consume digits at the head of [s],
    longest first, as the backtracking matcher tries them. *)
Fixpoint digit_runs (n : nat) (s : str) : list (str * str) :=
  match n, s with
  | S n', c :: r =>
      if is_ascii_digit c
      then map (fun '(d, rest) => (c :: d, rest)) (digit_runs n' r) ++ [([c], r)]
      else []
  | _, _ => []
  end.

Fixpoint first_match {A B} (f : A -> option B) (l : list A) : option B :=
  match l with
  | [] => None
  | x :: r => match f x with Some y => Some y | None => first_match f r end
  end.

(** [(?:[0-9]{1,3}\.){n}[0-9]{1,3}\b] at the head of [s]: the text matched
    and what follows it. *)
Fixpoint match_octets (n : nat) (s : str) : option (str * str) :=
  match n with
  | O =>
      first_match
        (fun '(d, rest) =>
           if word_boundary (last d) (head rest) then Some (d, rest) else None)
        (digit_runs 3 s)
  | S n' =>
      first_match
        (fun '(d, rest) =>
           match rest with
           | c :: rest' =>
               if (c =? dot)%N
               then match match_octets n' rest' with
                    | Some (m, r) => Some (d ++ dot :: m, r)
                    | None => None
                    end
               else None
           | [] => None
           end)
        (digit_runs 3 s)
  end.

(** [self.ip_pattern.match] at a position whose preceding character is [prev]. *)
Definition match_at (prev : option N) (s : str) : option (str * str) :=
  if word_boundary prev (head s) then match_octets 3 s else None.

(** [self.ip_pattern.findall]: leftmost matches, none overlapping; [skip]
    counts the characters still covered by the last match. *)
Fixpoint findall_from (prev : option N) (skip : nat) (s : str) : list str :=
  match s with
  | [] => []
  | c :: r =>
      match skip with
      | S k => findall_from (Some c) k r
      | O =>
          match match_at prev s with
          | Some (m, _) => m :: findall_from (Some c) (length m - 1) r
          | None => findall_from (Some c) 0 r
          end
      end
  end.

Definition findall (line : str) : list str := findall_from None 0 line.

(** The loop of [extract_ips_from_line], appending to [valid_ips]. *)
Fixpoint filter_valid (potential_ips valid_ips : list str) : result (list str) :=
  match potential_ips with
  | [] => Ok valid_ips
  | ip :: r =>
      rbind (is_valid_ip ip)
            (fun b => filter_valid r (if b then valid_ips ++ [ip] else valid_ips))
  end.

Definition extract_ips_from_line (line : str) : result (list str) :=
  filter_valid (findall line) [].

(** ** [IPProcessor] *)

Local Open Scope py_scope.

Definition init_stats : Stats :=
  {| total_lines_processed := 0; total_ips_found := 0;
     unique_public_ips_stored := 0; unique_private_ips_stored := 0;
     duplicate_ips_skipped := 0; within_file_duplicates := 0 |}.

(** The object [IPProcessor()] builds, beside the store as the world has
    it: the two collection fields are the server's collections, which the
    attributes of the same name denote once [connect_to_mongodb] has bound
    them, and which [main] reaches only after that. *)
Definition IPProcessor_init : state :=
  {| client := false; stats := init_stats; attr_processed_ips := None;
     public_ips_collection := stored_public E;
     private_ips_collection := stored_private E;
     update_calls := []; skipped := []; log := [] |}.

Definition connect_to_mongodb : M bool :=
  try_except
    (logger_info ConnectingToMongoDB ;;
     external (mongo_client_fault E) ;;
     modify (set_client true) ;;
     external (ping_fault E) ;;
     logger_info ConnectedToMongoDB ;;
     ret true)
    (fun e =>
       if is_ConnectionFailure e
       then Some (logger_error (FailedToConnect e) ;; ret false)
       else if is_Exception e
       then Some (logger_error (UnexpectedConnectError e) ;; ret false)
       else None).

(** [collection.update_one({"ip": ip}, {"$setOnInsert": document}, upsert=True)]
    against a collection: whether a document was upserted, and the
    collection afterwards. *)
Definition upsert (ip : str) (doc : document) (collection : list document)
  : bool * list document :=
  if existsb (fun d => bool_decide (doc_ip d = ip)) collection
  then (false, collection)
  else (true, collection ++ [doc]).

(** The call itself: it is recorded, and it raises when the world says so,
    leaving the collection as it was. *)
Definition update_one (is_private : bool) (ip : str) (doc : document) : M bool :=
  n <- gets (fun st => length (update_calls st)) ;;
  modify (add_update_call ip is_private) ;;
  external (update_one_fault E n) ;;
  collection <- gets (collection_of is_private) ;;
  let '(upserted, collection') := upsert ip doc collection in
  modify (set_collection is_private collection') ;;
  ret upserted.

Definition store_ip_in_mongodb (ip : str) (is_private : bool) : M bool :=
  try_except
    (let ip_type := if is_private then "private"%string else "public"%string in
     let doc := {| doc_ip := ip; doc_type := ip_type; first_seen := None |} in
     upserted <- update_one is_private ip doc ;;
     if upserted then ret true else ret false)
    (fun e =>
       if is_Exception e
       then Some (logger_error (ErrorStoringIP ip e) ;; ret false)
       else None).

(** The body of [for ip in ips_in_line], returning [processed_ips]. *)
Definition process_ip (ip : str) (processed_ips : gset (list N)) : M (gset (list N)) :=
  incr incr_total_ips_found ;;
  if bool_decide (ip ∈ processed_ips)
  then incr incr_within_file_duplicates ;;
       modify (add_skipped ip) ;;
       ret processed_ips
  else
    let processed_ips := {[ ip ]} ∪ processed_ips in
    is_private <- lift (is_private_ip ip) ;;
    success <- store_ip_in_mongodb ip is_private ;;
    (if success
     then if is_private
          then incr incr_unique_private_ips_stored
          else incr incr_unique_public_ips_stored
     else incr incr_duplicate_ips_skipped) ;;
    ret processed_ips.

Fixpoint scan_ips (ips_in_line : list str) (processed_ips : gset (list N))
  : M (gset (list N)) :=
  match ips_in_line with
  | [] => ret processed_ips
  | ip :: rest =>
      processed_ips <- process_ip ip processed_ips ;;
      scan_ips rest processed_ips
  end.

(** The body of [for line_num, line in enumerate(file, 1)]. *)
Definition process_line (line_num : Z) (line : str) (processed_ips : gset (list N))
  : M (gset (list N)) :=
  incr incr_total_lines_processed ;;
  ips_in_line <- lift (extract_ips_from_line (strip line)) ;;
  processed_ips <- scan_ips ips_in_line processed_ips ;;
  (if line_num mod 1000 =? 0 then logger_info (ProcessedLines line_num) else ret tt) ;;
  ret processed_ips.

Fixpoint scan_lines (line_num : Z) (lines : list str) (processed_ips : gset (list N))
  : M (gset (list N)) :=
  match lines with
  | [] => ret processed_ips
  | line :: rest =>
      processed_ips <- process_line line_num line processed_ips ;;
      scan_lines (line_num + 1) rest processed_ips
  end.

Definition process_log_file : M bool :=
  if negb (path_exists E)
  then logger_error LogFileNotFound ;; ret false
  else
    logger_info StartProcessing ;;
    let processed_ips : gset (list N) := ∅ in
    try_except
      (external (open_fault E) ;;
       _ <- scan_lines 1 (file_lines E) processed_ips ;;
       external (read_fault E) ;;
       logger_info ProcessingCompleted ;;
       ret true)
      (fun e =>
         if is_Exception e
         then Some (logger_error (ErrorProcessingLogFile e) ;; ret false)
         else None).

(** [collection.count_documents({})]. *)
Definition count_documents (is_private : bool) : M Z :=
  external (count_documents_fault E) ;;
  collection <- gets (collection_of is_private) ;;
  ret (Z.of_nat (length collection)).

Definition print_statistics : M unit :=
  s <- gets stats ;;
  logger_info StatisticsHeader ;;
  logger_info (TotalLinesProcessed (total_lines_processed s)) ;;
  logger_info (TotalIPsFound (total_ips_found s)) ;;
  logger_info (WithinFileDuplicates (within_file_duplicates s)) ;;
  attr <- gets attr_processed_ips ;;
  logger_info (UniqueIPsFromFile
                 (match attr with
                  | None => Z.of_nat (size (∅ : gset (list N)))
                  | Some processed_ips => Z.of_nat (size processed_ips)
                  end)) ;;
  logger_info (NewPublicStored (unique_public_ips_stored s)) ;;
  logger_info (NewPrivateStored (unique_private_ips_stored s)) ;;
  logger_info (DatabaseDuplicatesSkipped (duplicate_ips_skipped s)) ;;
  try_except
    (public_count <- count_documents false ;;
     private_count <- count_documents true ;;
     logger_info (TotalPublicInDatabase public_count) ;;
     logger_info (TotalPrivateInDatabase private_count) ;;
     let total_unique_from_file :=
       unique_public_ips_stored s + unique_private_ips_stored s
       + duplicate_ips_skipped s in
     logger_info (MathCheckUnique total_unique_from_file) ;;
     logger_info (MathCheckShouldEqual (total_ips_found s - within_file_duplicates s)))
    (fun e =>
       if is_Exception e then Some (logger_error (ErrorGettingCounts e)) else None).

(** [close_connection]; the driver's [close] is taken to return. *)
Definition close_connection : M unit :=
  c <- gets client ;;
  if c then logger_info ConnectionClosed else ret tt.

Definition main : M unit :=
  try_finally
    (try_except
       (connected <- connect_to_mongodb ;;
        (if negb connected
         then logger_error FailedToConnectExiting ;; sys_exit 1
         else ret tt) ;;
        success <- process_log_file ;;
        if success
        then print_statistics ;; logger_info CompletedSuccessfully
        else logger_error ProcessingFailed ;; sys_exit 1)
       (fun e =>
          if is_KeyboardInterrupt e
          then Some (logger_info InterruptedByUser)
          else if is_Exception e
          then Some (logger_error (UnexpectedError e) ;; sys_exit 1)
          else None))
    close_connection.

(** The exit status the interpreter ends with. *)
Definition exit_status (r : result unit) : Z :=
  match r with
  | Ok _ => 0
  | Raise (SystemExit code) => code
  | Raise KeyboardInterrupt => 130
  | Raise (Exc _) => 1
  end.

(** One run of the program: exit status and final state. *)
Definition run : Z * state :=
  let '(r, st) := main IPProcessor_init in (exit_status r, st).

End Program.

(** ** Vocabulary of the specification *)

(** The address [a.b.c.d] as a 32-bit number. *)
Definition ipv4 (a b c d : Z) : Z := ((a * 256 + b) * 256 + c) * 256 + d.

(** [ip] lies in the block [net/prefix]: the addresses from [net] up to the
    last one sharing its first [prefix] bits. *)
Definition in_cidr (net prefix ip : Z) : Prop :=
  net <= ip < net + 2 ^ (32 - prefix).

Definition rfc1918 (ip : Z) : Prop :=
  in_cidr (ipv4 10 0 0 0) 8 ip
  \/ in_cidr (ipv4 172 16 0 0) 12 ip
  \/ in_cidr (ipv4 192 168 0 0) 16 ip.

(** A decimal integer in [0,255]: one or more ASCII digits with that value. *)
Definition decimal_octet (o : str) : Prop :=
  o <> [] /\ Forall (fun c => is_ascii_digit c = true) o
  /\ 0 <= int_base10 o <= 255.

(** Exactly four such integers separated by dots. *)
Definition dotted_quad (s : str) : Prop :=
  exists o1 o2 o3 o4,
    s = o1 ++ dot :: o2 ++ dot :: o3 ++ dot :: o4
    /\ decimal_octet o1 /\ decimal_octet o2 /\ decimal_octet o3 /\ decimal_octet o4.

(** A candidate one of whose dot-separated groups is a number above 255. *)
Definition octet_above_255 (s : str) : Prop :=
  exists o, In o (split dot s) /\ forallb is_ascii_digit o = true /\ 255 < int_base10 o.

(** [sep.join(parts)]. *)
Fixpoint join (sep : N) (parts : list str) : str :=
  match parts with
  | [] => []
  | [x] => x
  | x :: r => x ++ sep :: join sep r
  end.

(** A string is accepted by [IPv4Address]. *)
Definition parses (s : str) : bool :=
  match ipaddress.IPv4Address s with
  | Ok _ => true
  | Raise _ => false
  end.

(** The statistics cross-check of [print_statistics] ("Math check"). *)
Definition cross_check (s : Stats) : Prop :=
  unique_public_ips_stored s + unique_private_ips_stored s + duplicate_ips_skipped s
  = total_ips_found s - within_file_duplicates s.

(** How often [a] occurs in [l]. *)
Fixpoint occurrences (a : str) (l : list str) : nat :=
  match l with
  | [] => 0
  | x :: r => (if bool_decide (x = a) then 1 else 0) + occurrences a r
  end.

(** The addresses one line contributes, and those of the whole file in the
    order the scan meets them. *)
Definition extracted (E : env) (line : str) : list str :=
  match extract_ips_from_line E (strip E line) with
  | Ok ips => ips
  | Raise _ => []
  end.

Definition scanned_ips (E : env) : list str :=
  concat (map (extracted E) (file_lines E)).

(** [processed_ips] after the occurrences [l]. *)
Definition mark_seen (P : gset (list N)) (l : list str) : gset (list N) :=
  fold_left (fun P x => {[ x ]} ∪ P) l P.

(** The occurrences of [l] that are first in the scan, given the set [P]
    of addresses met before, and the others. *)
Fixpoint first_occurrences (P : gset (list N)) (l : list str) : list str :=
  match l with
  | [] => []
  | x :: r =>
      if bool_decide (x ∈ P) then first_occurrences P r
      else x :: first_occurrences ({[ x ]} ∪ P) r
  end.

Fixpoint later_occurrences (P : gset (list N)) (l : list str) : list str :=
  match l with
  | [] => []
  | x :: r =>
      if bool_decide (x ∈ P) then x :: later_occurrences P r
      else later_occurrences ({[ x ]} ∪ P) r
  end.

(** What scanning the occurrences [l] does to the set of processed
    addresses, the store calls, the skipped occurrences and the counters. *)
Definition scan_effect (l : list str) (P : gset (list N)) (st : state)
                       (P' : gset (list N)) (st' : state) : Prop :=
  P' = mark_seen P l
  /\ (exists calls, update_calls st' = update_calls st ++ calls
                    /\ map fst calls = first_occurrences P l)
  /\ skipped st' = skipped st ++ later_occurrences P l
  /\ total_ips_found (stats st')
     = total_ips_found (stats st) + Z.of_nat (length l)
  /\ within_file_duplicates (stats st')
     = within_file_duplicates (stats st) + Z.of_nat (length (later_occurrences P l))
  /\ unique_public_ips_stored (stats st') + unique_private_ips_stored (stats st')
     + duplicate_ips_skipped (stats st')
     = unique_public_ips_stored (stats st) + unique_private_ips_stored (stats st)
       + duplicate_ips_skipped (stats st)
       + Z.of_nat (length (first_occurrences P l)).

(** The documents of a collection stored for an address. *)
Definition records_for (ip : str) (collection : list document) : list document :=
  List.filter (fun d => bool_decide (doc_ip d = ip)) collection.

(** The records [print_statistics] writes. *)
Definition is_statistics (m : message) : bool :=
  match m with
  | StatisticsHeader | TotalLinesProcessed _ | TotalIPsFound _
  | WithinFileDuplicates _ | UniqueIPsFromFile _ | NewPublicStored _
  | NewPrivateStored _ | DatabaseDuplicatesSkipped _ | TotalPublicInDatabase _
  | TotalPrivateInDatabase _ | MathCheckUnique _ | MathCheckShouldEqual _
  | ErrorGettingCounts _ => true
  | _ => false
  end.

(** The world's side of the outcomes the interface names. *)
Definition store_reachable (E : env) : Prop :=
  mongo_client_fault E = None /\ ping_fault E = None.

Definition store_unreachable (E : env) : Prop :=
  exists c, mongo_client_fault E = Some (FaultExc c)
            \/ (mongo_client_fault E = None /\ ping_fault E = Some (FaultExc c)).

Definition file_cannot_be_opened (E : env) : Prop :=
  path_exists E = false \/ exists c, open_fault E = Some (FaultExc c).

Definition file_opens (E : env) : Prop :=
  path_exists E = true /\ open_fault E = None.

Definition no_interrupt_in_store (E : env) : Prop :=
  forall n, update_one_fault E n <> Some FaultInterrupt.

(** A property of the state that a computation keeps, however it ends. *)
Definition preserves {A} (I : state -> Prop) (c : M A) : Prop :=
  forall st r st', I st -> c st = (r, st') -> I st'.

(** The object has no attribute [processed_ips], and every record logged
    so far satisfies [ok]. *)
Definition log_inv (ok : message -> bool) (st : state) : Prop :=
  attr_processed_ips st = None
  /\ forall l m, In (l, m) (log st) -> ok m = true.

Definition unique_zero (m : message) : bool :=
  match m with
  | UniqueIPsFromFile n => n =? 0
  | _ => true
  end.

Definition not_statistics (m : message) : bool := negb (is_statistics m).

(** ** Sample worlds *)

Definition quiet_env (lines : list str) : env :=
  {| isalnum_non_ascii := fun _ => false; isspace_non_ascii := fun _ => false;
     mongo_client_fault := None; ping_fault := None; path_exists := true;
     open_fault := None; file_lines := lines; read_fault := None;
     update_one_fault := fun _ => None; count_documents_fault := None;
     stored_public := []; stored_private := [] |}.

Definition sample_lines : list str :=
  [ py "req from 192.168.1.10 to 8.8.8.8 and 192.168.1.10 again";
    py "GET /index.html 8.8.8.8 999.1.1.1" ].

(** Two lines, a store that answers every call. *)
Definition env_ok : env := quiet_env sample_lines.

(** The same file; the first [update_one] call raises. *)
Definition env_store_error : env :=
  {| isalnum_non_ascii := fun _ => false; isspace_non_ascii := fun _ => false;
     mongo_client_fault := None; ping_fault := None; path_exists := true;
     open_fault := None; file_lines := sample_lines; read_fault := None;
     update_one_fault := fun n => if (n =? 0)%nat then Some (FaultExc PyMongoError) else None;
     count_documents_fault := None;
     stored_public := []; stored_private := [] |}.

(** The same file; the read after its two lines raises. *)
Definition env_read_error : env :=
  {| isalnum_non_ascii := fun _ => false; isspace_non_ascii := fun _ => false;
     mongo_client_fault := None; ping_fault := None; path_exists := true;
     open_fault := None; file_lines := sample_lines;
     read_fault := Some (FaultExc OSError);
     update_one_fault := fun _ => None; count_documents_fault := None;
     stored_public := []; stored_private := [] |}.

(** The server does not answer the ping. *)
Definition env_unreachable : env :=
  {| isalnum_non_ascii := fun _ => false; isspace_non_ascii := fun _ => false;
     mongo_client_fault := None; ping_fault := Some (FaultExc ConnectionFailure);
     path_exists := true;
     open_fault := None; file_lines := sample_lines; read_fault := None;
     update_one_fault := fun _ => None; count_documents_fault := None;
     stored_public := []; stored_private := [] |}.

(** There is no log file. *)
Definition env_no_file : env :=
  {| isalnum_non_ascii := fun _ => false; isspace_non_ascii := fun _ => false;
     mongo_client_fault := None; ping_fault := None; path_exists := false;
     open_fault := None; file_lines := []; read_fault := None;
     update_one_fault := fun _ => None; count_documents_fault := None;
     stored_public := []; stored_private := [] |}.

(** 192.168.1.10 is in the private collection from an earlier run. *)
Definition env_rescan : env :=
  {| isalnum_non_ascii := fun _ => false; isspace_non_ascii := fun _ => false;
     mongo_client_fault := None; ping_fault := None; path_exists := true;
     open_fault := None; file_lines := sample_lines; read_fault := None;
     update_one_fault := fun _ => None; count_documents_fault := None;
     stored_public := [];
     stored_private :=
       [ {| doc_ip := py "192.168.1.10"; doc_type := "private"; first_seen := None |} ] |}.

(** ** Further vocabulary *)

(** A decimal octet as [IPv4Address] accepts it: one to three ASCII digits,
    no leading zero unless the octet is the single digit 0, value at most
    255. *)
Definition canonical_octet (o : str) : Prop :=
  o <> [] /\ forallb is_ascii_digit o = true /\ (length o <= 3)%nat
  /\ (length o = 1%nat \/ head o <> Some 48%N)
  /\ int_base10 o <= 255.

(** The strings of [ms] occur in [s] one after the other, without overlap. *)
Fixpoint occur_in_order (ms : list str) (s : str) : Prop :=
  match ms with
  | [] => True
  | m :: r => exists pre post, s = pre ++ m ++ post /\ occur_in_order r post
  end.

(** The unique index on [ip]: no two documents of a collection have the
    same address. *)
Definition unique_ips (collection : list document) : Prop :=
  NoDup (map doc_ip collection).

(** The document [store_ip_in_mongodb] builds. *)
Definition document_of (ip : str) (is_private : bool) : document :=
  {| doc_ip := ip;
     doc_type := if is_private then "private"%string else "public"%string;
     first_seen := None |}.

(** No counter of [s] is below the same counter of [s0]. *)
Definition stats_le (s0 s : Stats) : Prop :=
  total_lines_processed s0 <= total_lines_processed s
  /\ total_ips_found s0 <= total_ips_found s
  /\ unique_public_ips_stored s0 <= unique_public_ips_stored s
  /\ unique_private_ips_stored s0 <= unique_private_ips_stored s
  /\ duplicate_ips_skipped s0 <= duplicate_ips_skipped s
  /\ within_file_duplicates s0 <= within_file_duplicates s.

(** The documents of a collection that belong there: the address is of the
    collection's classification and the [type] field says so. *)
Definition classified_as (is_private : bool) (d : document) : Prop :=
  is_private_ip (doc_ip d) = Ok is_private
  /\ doc_type d = (if is_private then "private"%string else "public"%string).

(** The two collections are those of [p0] and [q0] with documents of the
    right classification appended. *)
Definition appended_to (p0 q0 : list document) (st : state) : Prop :=
  exists l1 l2,
    public_ips_collection st = p0 ++ l1
    /\ private_ips_collection st = q0 ++ l2
    /\ Forall (classified_as false) l1
    /\ Forall (classified_as true) l2.

(** Both collections satisfy their unique index. *)
Definition unique_store (st : state) : Prop :=
  unique_ips (public_ips_collection st) /\ unique_ips (private_ips_collection st).

(** Every [update_one] call so far carried the classification of its
    address. *)
Definition calls_classified (st : state) : Prop :=
  forall ip b, In (ip, b) (update_calls st) -> is_private_ip ip = Ok b.

(** The address has a document in the collection of its classification. *)
Definition stored (a : str) (st : state) : Prop :=
  exists b, is_private_ip a = Ok b /\ records_for a (collection_of b st) <> [].

(** The store answers every [update_one] call. *)
Definition store_answers (E : env) : Prop :=
  forall n, update_one_fault E n = None.

(** Every address of [P] is stored. *)
Definition all_stored (P : gset (list N)) (st : state) : Prop :=
  forall a, a ∈ P -> stored a st.

(** The sample file; a [KeyboardInterrupt] arrives at the read after its
    two lines. *)
Definition env_interrupted : env :=
  {| isalnum_non_ascii := fun _ => false; isspace_non_ascii := fun _ => false;
     mongo_client_fault := None; ping_fault := None; path_exists := true;
     open_fault := None; file_lines := sample_lines;
     read_fault := Some FaultInterrupt;
     update_one_fault := fun _ => None; count_documents_fault := None;
     stored_public := []; stored_private := [] |}.

(** The sample file; [count_documents] raises. *)
Definition env_count_error : env :=
  {| isalnum_non_ascii := fun _ => false; isspace_non_ascii := fun _ => false;
     mongo_client_fault := None; ping_fault := None; path_exists := true;
     open_fault := None; file_lines := sample_lines; read_fault := None;
     update_one_fault := fun _ => None;
     count_documents_fault := Some (FaultExc PyMongoError);
     stored_public := []; stored_private := [] |}.

(** For each collection, its size less the counter of newly stored
    addresses of its classification. *)
Definition unbooked (st : state) : Z * Z :=
  (Z.of_nat (length (public_ips_collection st))
   - unique_public_ips_stored (stats st),
   Z.of_nat (length (private_ips_collection st))
   - unique_private_ips_stored (stats st)).

(** Collections and "stored" counters are those of [st0]. *)
Definition nothing_stored_since (st0 st : state) : Prop :=
  public_ips_collection st = public_ips_collection st0
  /\ private_ips_collection st = private_ips_collection st0
  /\ unique_public_ips_stored (stats st) = unique_public_ips_stored (stats st0)
  /\ unique_private_ips_stored (stats st) = unique_private_ips_stored (stats st0).

(** * Properties *)

(** ** Parsing of addresses *)

Lemma split_nonempty sep s : split sep s <> [].
Proof.
  destruct s as [|c r]; simpl; [discriminate|].
  destruct (c =? sep)%N; [discriminate|].
  destruct (split sep r); discriminate.
Qed.

Lemma join_split sep s : join sep (split sep s) = s.
Proof.
  induction s as [|c r IH]; [reflexivity|].
  simpl. destruct (N.eqb_spec c sep) as [->|Hne].
  - pose proof (split_nonempty sep r) as Hn.
    destruct (split sep r) as [|h t]; [congruence|].
    simpl in *. now rewrite IH.
  - pose proof (split_nonempty sep r) as Hn.
    destruct (split sep r) as [|h t]; [congruence|].
    destruct t as [|h' t]; simpl in *; now rewrite <- IH.
Qed.

Lemma int_base10_acc_nonneg s : forall acc,
  forallb is_ascii_digit s = true -> 0 <= acc ->
  0 <= fold_left (fun acc c => 10 * acc + digit_value c) s acc.
Proof.
  induction s as [|c r IH]; intros acc Hd Hacc; simpl; [assumption|].
  simpl in Hd. apply andb_prop in Hd as [Hc Hr].
  apply IH; [assumption|].
  unfold is_ascii_digit in Hc. apply andb_prop in Hc as [H1 H2].
  apply N.leb_le in H1. unfold digit_value. lia.
Qed.

Lemma int_base10_nonneg s : forallb is_ascii_digit s = true -> 0 <= int_base10 s.
Proof. intros H. apply int_base10_acc_nonneg; [assumption|lia]. Qed.

Lemma parse_octet_ok o n :
  ipaddress.parse_octet o = Ok n ->
  o <> [] /\ forallb is_ascii_digit o = true /\ n = int_base10 o /\ 0 <= n <= 255.
Proof.
  unfold ipaddress.parse_octet. destruct o as [|c0 rest]; [discriminate|].
  destruct (forallb is_ascii_digit (c0 :: rest)) eqn:Hd; cbn [negb]; [|discriminate].
  destruct (3 <? length (c0 :: rest))%nat; [discriminate|].
  destruct ((c0 =? 48)%N && negb (length rest =? 0)%nat); [discriminate|].
  destruct (255 <? int_base10 (c0 :: rest)) eqn:Hle; [discriminate|].
  intros [= <-]. apply Z.ltb_ge in Hle.
  repeat split; try assumption; try discriminate.
  now apply int_base10_nonneg.
Qed.

Lemma parse_octet_raises o e :
  ipaddress.parse_octet o = Raise e -> e = Exc ValueError.
Proof.
  unfold ipaddress.parse_octet. destruct o as [|c0 rest]; [congruence|].
  repeat match goal with
         | |- context [if ?b then _ else _] => destruct b
         end; congruence.
Qed.

Lemma rmap_raises {A B} (f : A -> result B) l e :
  rmap f l = Raise e -> exists x, In x l /\ f x = Raise e.
Proof.
  induction l as [|x r IH]; simpl; [discriminate|].
  destruct (f x) eqn:Hx; simpl.
  - destruct (rmap f r); simpl; [discriminate|].
    intros [= <-]. destruct IH as [y [Hy Hf]]; [reflexivity|]. eauto.
  - intros [= <-]. eauto.
Qed.

Lemma IPv4Address_raises s e :
  ipaddress.IPv4Address s = Raise e -> e = Exc AddressValueError.
Proof.
  unfold ipaddress.IPv4Address, ipaddress.ip_int_from_string.
  destruct (existsb _ s); [congruence|].
  destruct s as [|c r]; [congruence|].
  destruct (negb _); [congruence|].
  destruct (rmap ipaddress.parse_octet (split dot (c :: r))) eqn:Hm; simpl.
  - discriminate.
  - apply rmap_raises in Hm as [o [_ Ho]]. apply parse_octet_raises in Ho as ->.
    simpl. congruence.
Qed.

Lemma IPv4Address_ok s ip :
  ipaddress.IPv4Address s = Ok ip ->
  exists o1 o2 o3 o4 n1 n2 n3 n4,
    split dot s = [o1; o2; o3; o4]
    /\ ipaddress.parse_octet o1 = Ok n1 /\ ipaddress.parse_octet o2 = Ok n2
    /\ ipaddress.parse_octet o3 = Ok n3 /\ ipaddress.parse_octet o4 = Ok n4
    /\ ip = ipv4 n1 n2 n3 n4.
Proof.
  unfold ipaddress.IPv4Address, ipaddress.ip_int_from_string.
  destruct (existsb _ s); [discriminate|].
  destruct s as [|c r]; [discriminate|].
  destruct (split dot (c :: r)) as [|o1 [|o2 [|o3 [|o4 [|o5 t]]]]];
    simpl; try discriminate.
  destruct (ipaddress.parse_octet o1) as [n1|] eqn:H1; simpl;
    [|destruct (is_ValueError e); discriminate].
  destruct (ipaddress.parse_octet o2) as [n2|] eqn:H2; simpl;
    [|destruct (is_ValueError e); discriminate].
  destruct (ipaddress.parse_octet o3) as [n3|] eqn:H3; simpl;
    [|destruct (is_ValueError e); discriminate].
  destruct (ipaddress.parse_octet o4) as [n4|] eqn:H4; simpl;
    [|destruct (is_ValueError e); discriminate].
  intros [= <-]. exists o1, o2, o3, o4, n1, n2, n3, n4.
  repeat split; reflexivity || assumption.
Qed.

Lemma IPv4Address_range s ip :
  ipaddress.IPv4Address s = Ok ip -> 0 <= ip < 2 ^ 32.
Proof.
  intros H. apply IPv4Address_ok in H
    as (o1 & o2 & o3 & o4 & n1 & n2 & n3 & n4 & _ & H1 & H2 & H3 & H4 & ->).
  apply parse_octet_ok in H1 as (_ & _ & _ & ?).
  apply parse_octet_ok in H2 as (_ & _ & _ & ?).
  apply parse_octet_ok in H3 as (_ & _ & _ & ?).
  apply parse_octet_ok in H4 as (_ & _ & _ & ?).
  unfold ipv4. change (2 ^ 32) with 4294967296. lia.
Qed.

(** ** Classification *)

Lemma testbit_above a n i : 0 <= a < 2 ^ n -> 0 <= n <= i -> Z.testbit a i = false.
Proof.
  intros Ha Hn. rewrite <- (Z.mod_small a (2 ^ n)) by assumption.
  apply Z.mod_pow2_bits_high. lia.
Qed.

(** Masking with [p] ones above [k] zeros clears the low [k] bits of a
    number of [k + p] bits. *)
Lemma land_prefix_mask ip k p :
  0 <= k -> 0 <= p -> 0 <= ip < 2 ^ (k + p) ->
  Z.land ip (Z.shiftl (Z.ones p) k) = ip / 2 ^ k * 2 ^ k.
Proof.
  intros Hk Hp Hip.
  rewrite <- Z.shiftr_div_pow2, <- Z.shiftl_mul_pow2 by assumption.
  apply Z.bits_inj'. intros i Hi.
  rewrite Z.land_spec.
  destruct (Z.lt_ge_cases i k) as [Hlt|Hge].
  - rewrite !Z.shiftl_spec_low by assumption. apply andb_false_r.
  - rewrite !Z.shiftl_spec by assumption.
    rewrite Z.shiftr_spec by lia.
    replace (i - k + k) with i by lia.
    destruct (Z.lt_ge_cases (i - k) p) as [Hlo|Hhi].
    + rewrite Z.ones_spec_low by lia. apply andb_true_r.
    + rewrite Z.ones_spec_high by lia.
      rewrite (testbit_above ip (k + p) i) by lia. reflexivity.
Qed.

Lemma contains_in_cidr n0 k p ip :
  0 <= k -> 0 <= p -> k + p = 32 -> 0 <= ip < 2 ^ 32 ->
  ipaddress.contains
    {| ipaddress.network_address := n0 * 2 ^ k;
       ipaddress.netmask := Z.shiftl (Z.ones p) k |} ip = true
  <-> in_cidr (n0 * 2 ^ k) p ip.
Proof.
  intros Hk Hp Hkp Hip. unfold ipaddress.contains, in_cidr. simpl.
  rewrite land_prefix_mask by (rewrite ?Hkp; assumption).
  replace (32 - p) with k by lia.
  rewrite Z.eqb_eq.
  assert (Hpos : 0 < 2 ^ k) by (apply Z.pow_pos_nonneg; lia).
  pose proof (Z.div_mod ip (2 ^ k) ltac:(lia)) as Hdm.
  pose proof (Z.mod_pos_bound ip (2 ^ k) Hpos) as Hmod.
  split.
  - intros Heq. apply Z.mul_cancel_r in Heq; [|lia]. nia.
  - intros [Hlo Hhi]. f_equal.
    symmetry. apply (Z.div_unique ip (2 ^ k) n0 (ip - n0 * 2 ^ k)); lia.
Qed.

Lemma private_ranges_eq :
  private_ranges =
    [ {| ipaddress.network_address := 10 * 2 ^ 24;
         ipaddress.netmask := Z.shiftl (Z.ones 8) 24 |};
      {| ipaddress.network_address := 2753 * 2 ^ 20;
         ipaddress.netmask := Z.shiftl (Z.ones 12) 20 |};
      {| ipaddress.network_address := 49320 * 2 ^ 16;
         ipaddress.netmask := Z.shiftl (Z.ones 16) 16 |} ].
Proof. vm_compute. reflexivity. Qed.

Lemma is_private_ip_ok s ip :
  ipaddress.IPv4Address s = Ok ip ->
  is_private_ip s =
    Ok (existsb (fun network => ipaddress.contains network ip) private_ranges).
Proof. intros H. unfold is_private_ip. rewrite H. reflexivity. Qed.

(** C3: on every valid IPv4 address the classification is one boolean,
    [True] (private) exactly when the address lies in 10.0.0.0/8,
    172.16.0.0/12 or 192.168.0.0/16, and [False] (public) otherwise. *)
Theorem is_private_ip_iff_rfc1918 (s : str) (ip : Z) :
  ipaddress.IPv4Address s = Ok ip ->
  exists b, is_private_ip s = Ok b /\ (b = true <-> rfc1918 ip) /\ (b = false <-> ~ rfc1918 ip).
Proof.
  intros H. pose proof (IPv4Address_range _ _ H) as Hr.
  rewrite (is_private_ip_ok _ _ H), private_ranges_eq.
  eexists. split; [reflexivity|].
  assert (Hiff : existsb (fun network => ipaddress.contains network ip)
                   [ {| ipaddress.network_address := 10 * 2 ^ 24;
                        ipaddress.netmask := Z.shiftl (Z.ones 8) 24 |};
                     {| ipaddress.network_address := 2753 * 2 ^ 20;
                        ipaddress.netmask := Z.shiftl (Z.ones 12) 20 |};
                     {| ipaddress.network_address := 49320 * 2 ^ 16;
                        ipaddress.netmask := Z.shiftl (Z.ones 16) 16 |} ] = true
                 <-> rfc1918 ip).
  { cbn [existsb]. rewrite !orb_true_iff.
    rewrite (contains_in_cidr 10 24 8), (contains_in_cidr 2753 20 12),
      (contains_in_cidr 49320 16 16) by (assumption || lia).
    unfold rfc1918.
    change (ipv4 10 0 0 0) with (10 * 2 ^ 24).
    change (ipv4 172 16 0 0) with (2753 * 2 ^ 20).
    change (ipv4 192 168 0 0) with (49320 * 2 ^ 16).
    intuition discriminate. }
  split; [exact Hiff|].
  rewrite <- Hiff. destruct (existsb _ _); intuition congruence.
Qed.

Lemma is_private_ip_iff_rfc1918_witness :
  exists b, is_private_ip (py "172.31.255.255") = Ok b
            /\ (b = true <-> rfc1918 2887778303) /\ (b = false <-> ~ rfc1918 2887778303).
Proof.
  apply (is_private_ip_iff_rfc1918 (py "172.31.255.255") 2887778303).
  vm_compute. reflexivity.
Defined.

Lemma is_private_ip_returns (s : str) : exists b, is_private_ip s = Ok b.
Proof.
  unfold is_private_ip.
  destruct (ipaddress.IPv4Address s) as [ip|e] eqn:H; simpl; [eauto|].
  apply IPv4Address_raises in H as ->. simpl. eauto.
Qed.

(** C9: [is_private_ip] returns a boolean on every string and raises on
    none; on a string that [IPv4Address] rejects it returns [False]. *)
Theorem is_private_ip_total (s : str) :
  (exists b, is_private_ip s = Ok b)
  /\ (forall e, ipaddress.IPv4Address s = Raise e -> is_private_ip s = Ok false).
Proof.
  unfold is_private_ip.
  destruct (ipaddress.IPv4Address s) as [ip|e] eqn:H; simpl.
  - split; [eauto|discriminate].
  - apply IPv4Address_raises in H as ->. simpl. split; [eauto|reflexivity].
Qed.

Lemma is_private_ip_total_witness :
  is_private_ip (py "10.0.0.256") = Ok false.
Proof.
  apply (proj2 (is_private_ip_total (py "10.0.0.256")) (Exc AddressValueError)).
  vm_compute. reflexivity.
Defined.

(** ** Extraction *)

Lemma is_valid_ip_parses s : is_valid_ip s = Ok (parses s).
Proof.
  unfold is_valid_ip, parses.
  destruct (ipaddress.IPv4Address s) as [ip|e] eqn:H; simpl; [reflexivity|].
  apply IPv4Address_raises in H as ->. reflexivity.
Qed.

Lemma filter_valid_eq l : forall acc,
  filter_valid l acc = Ok (acc ++ List.filter parses l).
Proof.
  induction l as [|c r IH]; intros acc; simpl.
  - now rewrite app_nil_r.
  - rewrite is_valid_ip_parses. simpl. rewrite IH.
    destruct (parses c); [|reflexivity].
    now rewrite <- app_assoc.
Qed.

Lemma extract_ips_from_line_eq E line :
  extract_ips_from_line E line = Ok (List.filter parses (findall E line)).
Proof. unfold extract_ips_from_line. now rewrite filter_valid_eq. Qed.

Lemma parse_octet_decimal o n :
  ipaddress.parse_octet o = Ok n -> decimal_octet o.
Proof.
  intros H. apply parse_octet_ok in H as (Hne & Hd & -> & Hr).
  repeat split; try assumption; try lia.
  apply Forall_forall. intros c Hc. apply list_elem_of_In in Hc.
  now apply (proj1 (forallb_forall _ _) Hd).
Qed.

Lemma parses_dotted_quad s : parses s = true -> dotted_quad s.
Proof.
  unfold parses. destruct (ipaddress.IPv4Address s) as [ip|] eqn:H; [|discriminate].
  intros _. apply IPv4Address_ok in H
    as (o1 & o2 & o3 & o4 & n1 & n2 & n3 & n4 & Hs & H1 & H2 & H3 & H4 & _).
  exists o1, o2, o3, o4. split.
  - rewrite <- (join_split dot s), Hs. reflexivity.
  - repeat split; eapply parse_octet_decimal; eassumption.
Qed.

Lemma octet_above_255_rejected s : octet_above_255 s -> parses s = false.
Proof.
  intros (o & Hin & Hd & Hbig). unfold parses.
  destruct (ipaddress.IPv4Address s) as [ip|] eqn:H; [|reflexivity].
  apply IPv4Address_ok in H
    as (o1 & o2 & o3 & o4 & n1 & n2 & n3 & n4 & Hs & H1 & H2 & H3 & H4 & _).
  rewrite Hs in Hin.
  apply parse_octet_ok in H1 as (_ & _ & -> & ?).
  apply parse_octet_ok in H2 as (_ & _ & -> & ?).
  apply parse_octet_ok in H3 as (_ & _ & -> & ?).
  apply parse_octet_ok in H4 as (_ & _ & -> & ?).
  simpl in Hin. destruct Hin as [<-|[<-|[<-|[<-|[]]]]]; lia.
Qed.


(** ** The store *)

Ltac monad_unfold :=
  cbv [bind ret raise gets modify lift try_except try_finally external
       logger_info logger_error incr sys_exit].

Lemma store_ip_in_mongodb_answered (E : env) (ip : str) (is_private : bool) (st : state) :
  update_one_fault E (length (update_calls st)) = None ->
  let doc := {| doc_ip := ip;
                doc_type := if is_private then "private"%string else "public"%string;
                first_seen := None |} in
  let st1 := add_update_call ip is_private st in
  store_ip_in_mongodb (E : env) (ip : str) (is_private : bool) (st : state)
  = (Ok (fst (upsert ip doc (collection_of is_private st1))),
     set_collection is_private (snd (upsert ip doc (collection_of is_private st1))) st1).
Proof.
  intros Hf. unfold store_ip_in_mongodb, update_one. monad_unfold.
  rewrite Hf. cbv beta iota.
  destruct (upsert ip _ _) as [[|] coll]; reflexivity.
Qed.

Lemma store_ip_in_mongodb_error (E : env) (ip : str) (is_private : bool) (st : state) c :
  update_one_fault E (length (update_calls st)) = Some (FaultExc c) ->
  store_ip_in_mongodb (E : env) (ip : str) (is_private : bool) (st : state)
  = (Ok false, add_log ERROR (ErrorStoringIP ip (Exc c)) (add_update_call ip is_private st)).
Proof.
  intros Hf. unfold store_ip_in_mongodb, update_one. monad_unfold.
  rewrite Hf. reflexivity.
Qed.

Lemma store_ip_in_mongodb_interrupted (E : env) (ip : str) (is_private : bool) (st : state) :
  update_one_fault E (length (update_calls st)) = Some FaultInterrupt ->
  store_ip_in_mongodb (E : env) (ip : str) (is_private : bool) (st : state)
  = (Raise KeyboardInterrupt, add_update_call ip is_private st).
Proof.
  intros Hf. unfold store_ip_in_mongodb, update_one. monad_unfold.
  rewrite Hf. reflexivity.
Qed.

Lemma records_for_app ip c1 c2 :
  records_for ip (c1 ++ c2) = records_for ip c1 ++ records_for ip c2.
Proof. unfold records_for. apply List.filter_app. Qed.

Lemma records_for_absent ip coll :
  existsb (fun d => bool_decide (doc_ip d = ip)) coll = false ->
  records_for ip coll = [].
Proof.
  induction coll as [|d r IH]; simpl; [reflexivity|].
  intros H. apply orb_false_elim in H as [Hd Hr].
  rewrite Hd. auto.
Qed.

(** What the call does to the rest of the state. *)
Lemma store_ip_in_mongodb_frame (E : env) (ip : str) (is_private : bool) (st : state) r st' :
  store_ip_in_mongodb (E : env) (ip : str) (is_private : bool) (st : state) = (r, st') ->
  stats st' = stats st /\ skipped st' = skipped st
  /\ update_calls st' = update_calls st ++ [(ip, is_private)]
  /\ attr_processed_ips st' = attr_processed_ips st.
Proof.
  destruct (update_one_fault E (length (update_calls st))) as [[c|]|] eqn:Hf.
  - rewrite (store_ip_in_mongodb_error _ _ _ _ _ Hf). intros [= <- <-]. auto.
  - rewrite (store_ip_in_mongodb_interrupted _ _ _ _ Hf). intros [= <- <-]. auto.
  - rewrite (store_ip_in_mongodb_answered _ _ _ _ Hf). intros [= <- <-]. auto.
Qed.

Lemma records_for_nil_iff ip coll :
  records_for ip coll = []
  <-> existsb (fun d => bool_decide (doc_ip d = ip)) coll = false.
Proof.
  split; [|apply records_for_absent].
  induction coll as [|d r IH]; simpl; [reflexivity|].
  destruct (bool_decide (doc_ip d = ip)); [discriminate|]. exact IH.
Qed.

Lemma collection_of_set_collection p q c st :
  collection_of p (set_collection q c st)
  = if Bool.eqb p q then c else collection_of p st.
Proof. destruct p, q; reflexivity. Qed.

(** ** One occurrence *)

Lemma union_seen (x : str) (P : gset (list N)) : x ∈ P -> {[ x ]} ∪ P = P.
Proof. intros H. apply subseteq_union_1_L, singleton_subseteq_l. exact H. Qed.

Lemma mark_seen_app P l1 l2 : mark_seen P (l1 ++ l2) = mark_seen (mark_seen P l1) l2.
Proof. unfold mark_seen. apply fold_left_app. Qed.

Lemma first_occurrences_app l1 : forall P l2,
  first_occurrences P (l1 ++ l2)
  = first_occurrences P l1 ++ first_occurrences (mark_seen P l1) l2.
Proof.
  induction l1 as [|x r IH]; intros P l2; simpl; [reflexivity|].
  destruct (bool_decide (x ∈ P)) eqn:Hx.
  - apply bool_decide_eq_true in Hx.
    rewrite (union_seen x P Hx). apply IH.
  - simpl. f_equal. apply IH.
Qed.

Lemma later_occurrences_app l1 : forall P l2,
  later_occurrences P (l1 ++ l2)
  = later_occurrences P l1 ++ later_occurrences (mark_seen P l1) l2.
Proof.
  induction l1 as [|x r IH]; intros P l2; simpl; [reflexivity|].
  destruct (bool_decide (x ∈ P)) eqn:Hx.
  - apply bool_decide_eq_true in Hx.
    rewrite (union_seen x P Hx). simpl. f_equal. apply IH.
  - apply IH.
Qed.

Lemma scan_effect_nil P st : scan_effect [] P st P st.
Proof.
  unfold scan_effect. simpl. rewrite !app_nil_r.
  repeat split; try lia. exists []. now rewrite app_nil_r.
Qed.

Lemma scan_effect_app l1 l2 P st P1 st1 P2 st2 :
  scan_effect l1 P st P1 st1 -> scan_effect l2 P1 st1 P2 st2 ->
  scan_effect (l1 ++ l2) P st P2 st2.
Proof.
  intros (HP1 & (c1 & Hc1 & Hm1) & Hs1 & Ht1 & Hw1 & Hb1)
         (HP2 & (c2 & Hc2 & Hm2) & Hs2 & Ht2 & Hw2 & Hb2).
  subst P1. unfold scan_effect.
  rewrite mark_seen_app, first_occurrences_app, later_occurrences_app.
  rewrite !length_app, !Nat2Z.inj_add.
  split; [assumption|]. split.
  { exists (c1 ++ c2). rewrite Hc2, Hc1, map_app, Hm1, Hm2, app_assoc. auto. }
  split; [rewrite Hs2, Hs1, app_assoc; reflexivity|].
  repeat split; lia.
Qed.

Lemma process_ip_effect E ip P st P' st' :
  process_ip E ip P st = (Ok P', st') -> scan_effect [ip] P st P' st'.
Proof.
  unfold process_ip. monad_unfold. unfold scan_effect, mark_seen. simpl.
  destruct (bool_decide (ip ∈ P)) eqn:Hin.
  - intros [= <- <-]. simpl. apply bool_decide_eq_true in Hin.
    repeat split; try lia; [now rewrite union_seen|].
    exists []. now rewrite app_nil_r.
  - destruct (is_private_ip_returns ip) as [b Hb]. rewrite Hb.
    destruct (store_ip_in_mongodb E ip b _) as [[success|e] st1] eqn:Hs;
      [|discriminate].
    apply store_ip_in_mongodb_frame in Hs as (Hst & Hsk & Hcalls & _).
    simpl in Hst, Hsk, Hcalls.
    destruct success, b; intros [= <- <-]; simpl; rewrite Hst, Hsk, Hcalls;
      simpl; rewrite ?app_nil_r;
      (repeat split; try lia; eexists; split; reflexivity).
Qed.

(** ** The scan *)

Lemma scan_ips_effect E l : forall P st P' st',
  scan_ips E l P st = (Ok P', st') -> scan_effect l P st P' st'.
Proof.
  induction l as [|ip r IH]; intros P st P' st'; simpl.
  - intros [= <- <-]. apply scan_effect_nil.
  - unfold bind at 1.
    destruct (process_ip E ip P st) as [[P1|e] st1] eqn:H1; [|discriminate].
    intros H2. change (ip :: r) with ([ip] ++ r).
    eapply scan_effect_app; [apply (process_ip_effect _ _ _ _ _ _ H1)|].
    now apply IH.
Qed.

Lemma extract_strip_extracted E line :
  extract_ips_from_line E (strip E line) = Ok (extracted E line).
Proof. unfold extracted. now rewrite extract_ips_from_line_eq. Qed.

Lemma process_line_effect E n line P st P' st' :
  process_line E n line P st = (Ok P', st') ->
  scan_effect (extracted E line) P st P' st'.
Proof.
  unfold process_line. rewrite extract_strip_extracted. monad_unfold.
  destruct (scan_ips E (extracted E line) P _) as [[P1|e] st1] eqn:Hs; [|discriminate].
  apply scan_ips_effect in Hs.
  destruct (n mod 1000 =? 0); intros [= <- <-];
    unfold scan_effect in *; simpl in *; exact Hs.
Qed.

Lemma scan_lines_effect E lines : forall n P st P' st',
  scan_lines E n lines P st = (Ok P', st') ->
  scan_effect (concat (map (extracted E) lines)) P st P' st'.
Proof.
  induction lines as [|line r IH]; intros n P st P' st'; simpl.
  - intros [= <- <-]. apply scan_effect_nil.
  - unfold bind at 1.
    destruct (process_line E n line P st) as [[P1|e] st1] eqn:H1; [|discriminate].
    intros H2. eapply scan_effect_app; [apply (process_line_effect _ _ _ _ _ _ _ H1)|].
    now apply (IH (n + 1)).
Qed.

(** A call of [process_log_file] that returns [True] has scanned every line
    the file holds. *)
Lemma process_log_file_complete E st st' :
  process_log_file E st = (Ok true, st') ->
  path_exists E = true /\ open_fault E = None /\ read_fault E = None
  /\ exists P' st1,
       scan_lines E 1 (file_lines E) ∅ (add_log INFO StartProcessing st) = (Ok P', st1)
       /\ st' = add_log INFO ProcessingCompleted st1.
Proof.
  unfold process_log_file.
  destruct (path_exists E); simpl; [|monad_unfold; discriminate].
  monad_unfold.
  destruct (open_fault E) as [[c|]|]; try discriminate.
  destruct (scan_lines E 1 (file_lines E) ∅ _) as [[P'|e] st1] eqn:Hs.
  - destruct (read_fault E) as [[c|]|]; try discriminate.
    intros [= <-]. repeat split. eauto.
  - destruct (is_Exception e); discriminate.
Qed.

Lemma scan_effect_cross_check l P st P' st' :
  scan_effect l P st P' st' -> cross_check (stats st) -> cross_check (stats st').
Proof.
  intros (_ & _ & _ & Ht & Hw & Hb). unfold cross_check. intros Hc.
  assert (Hlen : forall l P, length l
                 = (length (first_occurrences P l) + length (later_occurrences P l))%nat).
  { clear. induction l as [|x r IH]; intros P; simpl; [reflexivity|].
    pose proof (IH P). pose proof (IH ({[ x ]} ∪ P)).
    destruct (bool_decide (x ∈ P)); simpl; lia. }
  rewrite (Hlen l P) in Ht. lia.
Qed.

(** C1: a scan that runs to the end of the file keeps the statistics
    cross-check: if the counters satisfy it when [process_log_file] is
    called (those of a new [IPProcessor] are all zero and do), then after a
    call that returns [True],
    unique_public_ips_stored + unique_private_ips_stored + duplicate_ips_skipped
    = total_ips_found - within_file_duplicates. *)
Theorem cross_check_after_complete_scan (E : env) (st st' : state) :
  cross_check (stats st) ->
  process_log_file E st = (Ok true, st') ->
  cross_check (stats st').
Proof.
  intros Hc H.
  apply process_log_file_complete in H as (_ & _ & _ & P' & st1 & Hs & ->).
  apply scan_lines_effect in Hs.
  apply (scan_effect_cross_check _ _ _ _ _ Hs). exact Hc.
Qed.

Lemma cross_check_after_complete_scan_witness :
  cross_check (stats (snd (process_log_file env_store_error
                                             (IPProcessor_init env_store_error)))).
Proof.
  apply (cross_check_after_complete_scan env_store_error
           (IPProcessor_init env_store_error)).
  - reflexivity.
  - vm_compute. reflexivity.
Defined.

(** ** Occurrences *)

Lemma occurrences_split a l : forall P,
  (occurrences a (first_occurrences P l) + occurrences a (later_occurrences P l)
   = occurrences a l)%nat.
Proof.
  induction l as [|x r IH]; intros P; simpl; [reflexivity|].
  pose proof (IH P). pose proof (IH ({[ x ]} ∪ P)).
  destruct (bool_decide (x ∈ P)); simpl; lia.
Qed.

Lemma occurrences_first_seen a l : forall P,
  a ∈ P -> occurrences a (first_occurrences P l) = 0%nat.
Proof.
  induction l as [|x r IH]; intros P Ha; simpl; [reflexivity|].
  destruct (bool_decide (x ∈ P)) eqn:Hx; [now apply IH|].
  simpl. apply bool_decide_eq_false in Hx.
  destruct (bool_decide (x = a)) eqn:Hxa.
  - apply bool_decide_eq_true in Hxa. subst x. contradiction.
  - simpl. apply IH. apply elem_of_union. now right.
Qed.

Lemma occurrences_first a l : forall P,
  a ∉ P -> (0 < occurrences a l)%nat ->
  occurrences a (first_occurrences P l) = 1%nat.
Proof.
  induction l as [|x r IH]; intros P Ha Hocc; simpl in *; [lia|].
  destruct (bool_decide (x = a)) eqn:Hxa.
  - apply bool_decide_eq_true in Hxa. subst x.
    rewrite bool_decide_eq_false_2 by assumption. simpl.
    rewrite bool_decide_eq_true_2 by reflexivity.
    rewrite occurrences_first_seen; [reflexivity|].
    apply elem_of_union. left. now apply elem_of_singleton.
  - apply bool_decide_eq_false in Hxa. simpl in Hocc.
    destruct (bool_decide (x ∈ P)) eqn:Hx; [now apply IH|].
    simpl. rewrite bool_decide_eq_false_2 by assumption. simpl.
    apply IH; [|assumption].
    intros Hin. apply elem_of_union in Hin as [Hin|Hin]; [|contradiction].
    apply elem_of_singleton in Hin. congruence.
Qed.

(** C5: in a scan that runs to the end of the file, an address that the
    lines of the file yield N > 1 times gets exactly one [update_one] call,
    and the within-file check skips it exactly N - 1 times;
    [within_file_duplicates] grows by one per skipped occurrence, so by
    N - 1 on account of that address. *)
Theorem within_file_dedup (E : env) (st st' : state) :
  process_log_file E st = (Ok true, st') ->
  exists calls skips,
    update_calls st' = update_calls st ++ calls
    /\ skipped st' = skipped st ++ skips
    /\ within_file_duplicates (stats st')
       = within_file_duplicates (stats st) + Z.of_nat (length skips)
    /\ forall a, (1 < occurrences a (scanned_ips E))%nat ->
         occurrences a (map fst calls) = 1%nat
         /\ occurrences a skips = (occurrences a (scanned_ips E) - 1)%nat.
Proof.
  intros H.
  apply process_log_file_complete in H as (_ & _ & _ & P' & st1 & Hs & ->).
  apply scan_lines_effect in Hs as (_ & (calls & Hc & Hm) & Hsk & _ & Hw & _).
  simpl in *. fold (scanned_ips E) in *.
  exists calls, (later_occurrences ∅ (scanned_ips E)).
  repeat split; try assumption.
  - rewrite Hm. apply occurrences_first; [apply not_elem_of_empty|lia].
  - pose proof (occurrences_split a (scanned_ips E) ∅) as Hsp.
    rewrite (occurrences_first a (scanned_ips E) ∅) in Hsp;
      [lia|apply not_elem_of_empty|lia].
Qed.

Lemma within_file_dedup_witness :
  exists calls skips,
    update_calls (snd (process_log_file env_ok (IPProcessor_init env_ok))) = calls
    /\ skipped (snd (process_log_file env_ok (IPProcessor_init env_ok))) = skips
    /\ occurrences (py "192.168.1.10") (map fst calls) = 1%nat
    /\ occurrences (py "192.168.1.10") skips = 1%nat.
Proof.
  destruct (within_file_dedup env_ok (IPProcessor_init env_ok)
              (snd (process_log_file env_ok (IPProcessor_init env_ok))))
    as (calls & skips & Hc & Hs & _ & Ha).
  - vm_compute. reflexivity.
  - exists calls, skips. split; [exact Hc|]. split; [exact Hs|].
    apply (Ha (py "192.168.1.10")). vm_compute. lia.
Defined.

(** ** A store call that fails *)

Lemma process_ip_store_error (E : env) (ip : str) (P : gset (list N)) (st : state) c :
  ip ∉ P ->
  update_one_fault E (length (update_calls st)) = Some (FaultExc c) ->
  exists b,
    is_private_ip ip = Ok b
    /\ process_ip E ip P st
       = (Ok ({[ ip ]} ∪ P),
          set_stats (incr_duplicate_ips_skipped (incr_total_ips_found (stats st)))
            (add_log ERROR (ErrorStoringIP ip (Exc c)) (add_update_call ip b st))).
Proof.
  intros Hnew Hf. destruct (is_private_ip_returns ip) as [b Hb].
  exists b. split; [exact Hb|].
  unfold process_ip. monad_unfold.
  rewrite bool_decide_eq_false_2 by assumption. rewrite Hb.
  rewrite (store_ip_in_mongodb_error E ip b _ c) by exact Hf.
  reflexivity.
Qed.

(** What the code does when the [update_one] call for the first occurrence
    of an address raises an exception: [store_ip_in_mongodb] logs the error
    and returns [False], the scan goes on with the next address, neither of
    the two stored counters moves, and the occurrence goes through the
    [else] branch of [process_log_file], which increments
    [duplicate_ips_skipped]. *)
Lemma store_error_counted_as_duplicate
    (E : env) (ip : str) (P : gset (list N)) (st : state) (c : exc_class)
    (rest : list str) :
  ip ∉ P ->
  update_one_fault E (length (update_calls st)) = Some (FaultExc c) ->
  exists st',
    process_ip E ip P st = (Ok ({[ ip ]} ∪ P), st')
    /\ scan_ips E (ip :: rest) P st = scan_ips E rest ({[ ip ]} ∪ P) st'
    /\ unique_public_ips_stored (stats st') = unique_public_ips_stored (stats st)
    /\ unique_private_ips_stored (stats st') = unique_private_ips_stored (stats st)
    /\ duplicate_ips_skipped (stats st') = duplicate_ips_skipped (stats st) + 1
    /\ total_ips_found (stats st') = total_ips_found (stats st) + 1
    /\ within_file_duplicates (stats st') = within_file_duplicates (stats st)
    /\ public_ips_collection st' = public_ips_collection st
    /\ private_ips_collection st' = private_ips_collection st
    /\ In (ERROR, ErrorStoringIP ip (Exc c)) (log st').
Proof.
  intros Hnew Hf.
  destruct (process_ip_store_error E ip P st c Hnew Hf) as (b & _ & Hp).
  eexists. split; [exact Hp|]. split.
  - simpl. unfold bind at 1. rewrite Hp. reflexivity.
  - simpl. repeat split. apply in_or_app. right. left. reflexivity.
Qed.

(** C2: the code does not do what the claim says. In this world both
    collections are empty and the first [update_one] call raises. The scan
    goes on ([process_ip] returns), the address is in neither collection
    before or after, and yet the occurrence is booked in
    [duplicate_ips_skipped]: it runs the branch the source comments
    "IP already existed in database", and [print_statistics] reports it as
    "Database duplicates skipped". *)
Theorem store_error_booked_as_duplicate :
  let E := env_store_error in
  let st := IPProcessor_init E in
  let ip := py "192.168.1.10" in
  update_one_fault E (length (update_calls st)) = Some (FaultExc PyMongoError)
  /\ records_for ip (public_ips_collection st) = []
  /\ records_for ip (private_ips_collection st) = []
  /\ duplicate_ips_skipped (stats st) = 0
  /\ exists st',
       process_ip E ip ∅ st = (Ok ({[ ip ]} ∪ ∅), st')
       /\ duplicate_ips_skipped (stats st') = 1
       /\ unique_public_ips_stored (stats st') = 0
       /\ unique_private_ips_stored (stats st') = 0
       /\ records_for ip (public_ips_collection st') = []
       /\ records_for ip (private_ips_collection st') = []
       /\ In (ERROR, ErrorStoringIP ip (Exc PyMongoError)) (log st').
Proof.
  intros E st ip. repeat (split; [reflexivity|]).
  destruct (process_ip_store_error E ip ∅ st PyMongoError)
    as (b & _ & Hp); [apply not_elem_of_empty|reflexivity|].
  eexists. split; [exact Hp|]. simpl.
  repeat (split; [reflexivity|]). left. reflexivity.
Qed.

(** ** Storing the same address twice *)

(** C7 as the claim has it fails in two ways. When the address is in the
    collection from an earlier run, the first of the two calls already
    returns [False]. When the first call raises, it returns [False] too,
    and stores nothing. *)
Lemma store_twice_counterexample :
  (update_one_fault env_rescan 0 = None
   /\ update_one_fault env_rescan 1 = None
   /\ fst (store_ip_in_mongodb env_rescan (py "192.168.1.10") true
             (IPProcessor_init env_rescan)) <> Ok true)
  /\ (fst (store_ip_in_mongodb env_store_error (py "192.168.1.10") true
             (IPProcessor_init env_store_error)) <> Ok true
      /\ records_for (py "192.168.1.10")
           (collection_of true
              (snd (store_ip_in_mongodb env_store_error (py "192.168.1.10") true
                      (IPProcessor_init env_store_error)))) = []).
Proof.
  split.
  - split; [reflexivity|]. split; [reflexivity|]. vm_compute. discriminate.
  - split; [vm_compute; discriminate|vm_compute; reflexivity].
Qed.

(** ** Properties kept along every path *)

Lemma preserves_ret {A} I (a : A) : preserves I (ret a).
Proof. intros st r st' HI [= _ <-]. exact HI. Qed.

Lemma preserves_raise {A} I e : preserves I (@raise A e).
Proof. intros st r st' HI [= _ <-]. exact HI. Qed.

Lemma preserves_lift {A} I (x : result A) : preserves I (lift x).
Proof. intros st r st' HI [= _ <-]. exact HI. Qed.

Lemma preserves_gets {A} I (f : state -> A) : preserves I (gets f).
Proof. intros st r st' HI [= _ <-]. exact HI. Qed.

Lemma preserves_modify I f :
  (forall st, I st -> I (f st)) -> preserves I (modify f).
Proof. intros Hf st r st' HI [= _ <-]. auto. Qed.

Lemma preserves_bind {A B} I (c : M A) (k : A -> M B) :
  preserves I c -> (forall a, preserves I (k a)) -> preserves I (bind c k).
Proof.
  intros Hc Hk st r st' HI. unfold bind.
  destruct (c st) as [[a|e] st1] eqn:Hcs.
  - apply (Hk a). eapply Hc; eassumption.
  - intros [= _ <-]. eapply Hc; eassumption.
Qed.

Lemma preserves_try_except {A} I (c : M A) handler :
  preserves I c -> (forall e h, handler e = Some h -> preserves I h) ->
  preserves I (try_except c handler).
Proof.
  intros Hc Hh st r st' HI. unfold try_except.
  destruct (c st) as [[a|e] st1] eqn:Hcs.
  - intros [= _ <-]. eapply Hc; eassumption.
  - destruct (handler e) as [h|] eqn:He.
    + apply (Hh e h He). eapply Hc; eassumption.
    + intros [= _ <-]. eapply Hc; eassumption.
Qed.

Lemma preserves_try_finally {A} I (c : M A) f :
  preserves I c -> preserves I f -> preserves I (try_finally c f).
Proof.
  intros Hc Hf st r st' HI. unfold try_finally.
  destruct (c st) as [r1 st1] eqn:Hcs.
  destruct (f st1) as [[u|e] st2] eqn:Hfs; intros [= _ <-];
    (eapply (Hf st1); [eapply Hc; eassumption|eassumption]).
Qed.

Lemma preserves_external I f : preserves I (external f).
Proof. destruct f; [apply preserves_raise|apply preserves_ret]. Qed.

Lemma preserves_sys_exit {A} I code : preserves I (@sys_exit A code).
Proof. apply preserves_raise. Qed.

Section LogInvariant.

Variable ok : message -> bool.

Lemma log_inv_add_log l m st :
  ok m = true -> log_inv ok st -> log_inv ok (add_log l m st).
Proof.
  intros Hm [Ha Hl]. split; [exact Ha|].
  intros l' m' Hin. simpl in Hin. apply in_app_or in Hin as [Hin|[[= <- <-]|[]]].
  - eapply Hl; eassumption.
  - exact Hm.
Qed.

Lemma preserves_logger_info m :
  ok m = true -> preserves (log_inv ok) (logger_info m).
Proof. intros Hm. apply preserves_modify. intros st. now apply log_inv_add_log. Qed.

Lemma preserves_logger_error m :
  ok m = true -> preserves (log_inv ok) (logger_error m).
Proof. intros Hm. apply preserves_modify. intros st. now apply log_inv_add_log. Qed.

Lemma preserves_incr f : preserves (log_inv ok) (incr f).
Proof. apply preserves_modify. intros st H. exact H. Qed.

Lemma preserves_set_client b : preserves (log_inv ok) (modify (set_client b)).
Proof. apply preserves_modify. intros st H. exact H. Qed.

Lemma preserves_add_update_call ip b :
  preserves (log_inv ok) (modify (add_update_call ip b)).
Proof. apply preserves_modify. intros st H. exact H. Qed.

Lemma preserves_add_skipped ip : preserves (log_inv ok) (modify (add_skipped ip)).
Proof. apply preserves_modify. intros st H. exact H. Qed.

Lemma preserves_set_collection b c :
  preserves (log_inv ok) (modify (set_collection b c)).
Proof. apply preserves_modify. intros st H. exact H. Qed.

(** Reading the attribute of an object that lacks it. *)
Lemma preserves_gets_attr {B} (k : option (gset (list N)) -> M B) :
  preserves (log_inv ok) (k None) ->
  preserves (log_inv ok) (bind (gets attr_processed_ips) k).
Proof.
  intros Hk st r st' HI. unfold bind, gets.
  destruct HI as [Ha Hl]. rewrite Ha. apply Hk. split; assumption.
Qed.

End LogInvariant.

Ltac preserves_handler :=
  let e := fresh "e" in
  let h := fresh "h" in
  let Hh := fresh "Hh" in
  intros e h Hh; cbv beta in Hh;
  repeat match type of Hh with
         | context [if ?b then _ else _] => destruct b
         end;
  try discriminate Hh; injection Hh as <-.

Ltac preserves_step :=
  lazymatch goal with
  | |- preserves _ (bind (gets attr_processed_ips) _) => apply preserves_gets_attr
  | |- preserves _ (bind _ _) => apply preserves_bind; [|intros ?]
  | |- preserves _ (ret _) => apply preserves_ret
  | |- preserves _ (raise _) => apply preserves_raise
  | |- preserves _ (sys_exit _) => apply preserves_sys_exit
  | |- preserves _ (lift _) => apply preserves_lift
  | |- preserves _ (gets _) => apply preserves_gets
  | |- preserves _ (external _) => apply preserves_external
  | |- preserves _ (incr _) => apply preserves_incr
  | |- preserves _ (modify (set_client _)) => apply preserves_set_client
  | |- preserves _ (modify (add_update_call _ _)) => apply preserves_add_update_call
  | |- preserves _ (modify (add_skipped _)) => apply preserves_add_skipped
  | |- preserves _ (modify (set_collection _ _)) => apply preserves_set_collection
  | |- preserves _ (logger_info _) => apply preserves_logger_info
  | |- preserves _ (logger_error _) => apply preserves_logger_error
  | |- preserves _ (try_except _ _) =>
      apply preserves_try_except; [|preserves_handler]
  | |- preserves _ (try_finally _ _) => apply preserves_try_finally
  | |- preserves _ (if ?b then _ else _) => destruct b
  | |- preserves _ (match ?x with _ => _ end) => destruct x
  end.

Section ScanKeepsLog.

Variable ok : message -> bool.
Variable E : env.
Hypothesis ok_error_storing : forall ip e, ok (ErrorStoringIP ip e) = true.
Hypothesis ok_processed_lines : forall n, ok (ProcessedLines n) = true.

Lemma preserves_store_ip_in_mongodb ip b :
  preserves (log_inv ok) (store_ip_in_mongodb E ip b).
Proof.
  unfold store_ip_in_mongodb, update_one. repeat preserves_step; auto.
Qed.

Lemma preserves_process_ip ip P : preserves (log_inv ok) (process_ip E ip P).
Proof.
  unfold process_ip.
  repeat preserves_step; auto using preserves_store_ip_in_mongodb.
Qed.

Lemma preserves_scan_ips l : forall P, preserves (log_inv ok) (scan_ips E l P).
Proof.
  induction l as [|ip r IH]; intros P; simpl;
    repeat preserves_step; auto using preserves_process_ip.
Qed.

Lemma preserves_process_line n line P :
  preserves (log_inv ok) (process_line E n line P).
Proof.
  unfold process_line. repeat preserves_step; auto using preserves_scan_ips.
Qed.

Lemma preserves_scan_lines lines : forall n P,
  preserves (log_inv ok) (scan_lines E n lines P).
Proof.
  induction lines as [|line r IH]; intros n P; simpl;
    repeat preserves_step; auto using preserves_process_line.
Qed.

End ScanKeepsLog.

(** ** What the scan can raise *)

Lemma store_ip_in_mongodb_raises (E : env) (ip : str) (b : bool) st e st' :
  store_ip_in_mongodb E ip b st = (Raise e, st') ->
  e = KeyboardInterrupt /\ exists n, update_one_fault E n = Some FaultInterrupt.
Proof.
  destruct (update_one_fault E (length (update_calls st))) as [[c|]|] eqn:Hf.
  - rewrite (store_ip_in_mongodb_error _ _ _ _ _ Hf). discriminate.
  - rewrite (store_ip_in_mongodb_interrupted _ _ _ _ Hf). intros [= <- _]. eauto.
  - rewrite (store_ip_in_mongodb_answered _ _ _ _ Hf). discriminate.
Qed.

Lemma process_ip_raises (E : env) (ip : str) P st e st' :
  process_ip E ip P st = (Raise e, st') ->
  e = KeyboardInterrupt /\ exists n, update_one_fault E n = Some FaultInterrupt.
Proof.
  unfold process_ip. monad_unfold.
  destruct (bool_decide (ip ∈ P)); [discriminate|].
  destruct (is_private_ip_returns ip) as [b Hb]. rewrite Hb.
  destruct (store_ip_in_mongodb E ip b _) as [[success|e1] st1] eqn:Hs.
  - destruct success, b; discriminate.
  - intros [= <- _]. eapply store_ip_in_mongodb_raises; eassumption.
Qed.

Lemma scan_ips_raises (E : env) l : forall P st e st',
  scan_ips E l P st = (Raise e, st') ->
  e = KeyboardInterrupt /\ exists n, update_one_fault E n = Some FaultInterrupt.
Proof.
  induction l as [|ip r IH]; intros P st e st'; simpl; [discriminate|].
  unfold bind at 1.
  destruct (process_ip E ip P st) as [[P1|e1] st1] eqn:H1.
  - apply IH.
  - intros [= <- _]. eapply process_ip_raises; eassumption.
Qed.

Lemma process_line_raises (E : env) n line P st e st' :
  process_line E n line P st = (Raise e, st') ->
  e = KeyboardInterrupt /\ exists n, update_one_fault E n = Some FaultInterrupt.
Proof.
  unfold process_line. rewrite extract_strip_extracted. monad_unfold.
  destruct (scan_ips E (extracted E line) P _) as [[P1|e1] st1] eqn:Hs.
  - destruct (n mod 1000 =? 0); discriminate.
  - intros [= <- _]. eapply scan_ips_raises; eassumption.
Qed.

Lemma scan_lines_raises (E : env) lines : forall n P st e st',
  scan_lines E n lines P st = (Raise e, st') ->
  e = KeyboardInterrupt /\ exists n, update_one_fault E n = Some FaultInterrupt.
Proof.
  induction lines as [|line r IH]; intros n P st e st'; simpl; [discriminate|].
  unfold bind at 1.
  destruct (process_line E n line P st) as [[P1|e1] st1] eqn:H1.
  - apply IH.
  - intros [= <- _]. eapply process_line_raises; eassumption.
Qed.

Lemma scan_lines_returns (E : env) lines n P st :
  no_interrupt_in_store E ->
  exists P' st', scan_lines E n lines P st = (Ok P', st').
Proof.
  intros Hno. destruct (scan_lines E n lines P st) as [[P'|e] st'] eqn:Hs; [eauto|].
  apply scan_lines_raises in Hs as (_ & k & Hk). now apply Hno in Hk.
Qed.

(** ** The paths of [process_log_file] *)

Lemma process_log_file_missing (E : env) st :
  path_exists E = false ->
  process_log_file E st = (Ok false, add_log ERROR LogFileNotFound st).
Proof. intros H. unfold process_log_file. rewrite H. reflexivity. Qed.

Lemma process_log_file_unopenable (E : env) st c :
  path_exists E = true -> open_fault E = Some (FaultExc c) ->
  process_log_file E st
  = (Ok false, add_log ERROR (ErrorProcessingLogFile (Exc c))
                 (add_log INFO StartProcessing st)).
Proof.
  intros H1 H2. unfold process_log_file. rewrite H1. monad_unfold.
  rewrite H2. reflexivity.
Qed.

Lemma process_log_file_scanned (E : env) st P' st1 :
  file_opens E ->
  scan_lines E 1 (file_lines E) ∅ (add_log INFO StartProcessing st) = (Ok P', st1) ->
  process_log_file E st
  = match read_fault E with
    | None => (Ok true, add_log INFO ProcessingCompleted st1)
    | Some (FaultExc c) =>
        (Ok false, add_log ERROR (ErrorProcessingLogFile (Exc c)) st1)
    | Some FaultInterrupt => (Raise KeyboardInterrupt, st1)
    end.
Proof.
  intros [H1 H2] Hs. unfold process_log_file. rewrite H1. cbn [negb]. monad_unfold.
  rewrite H2. cbv beta iota. rewrite Hs.
  destruct (read_fault E) as [[c|]|]; reflexivity.
Qed.

Lemma process_log_file_interrupted (E : env) st e st1 :
  file_opens E ->
  scan_lines E 1 (file_lines E) ∅ (add_log INFO StartProcessing st) = (Raise e, st1) ->
  process_log_file E st = (Raise KeyboardInterrupt, st1).
Proof.
  intros [H1 H2] Hs. pose proof (scan_lines_raises _ _ _ _ _ _ _ Hs) as [-> _].
  unfold process_log_file. rewrite H1. cbn [negb]. monad_unfold.
  rewrite H2. cbv beta iota. rewrite Hs. reflexivity.
Qed.

(** ** The paths of [main] *)

Lemma connect_to_mongodb_reachable (E : env) st :
  store_reachable E ->
  connect_to_mongodb E st
  = (Ok true, add_log INFO ConnectedToMongoDB
                (set_client true (add_log INFO ConnectingToMongoDB st))).
Proof.
  intros [H1 H2]. unfold connect_to_mongodb. monad_unfold.
  rewrite H1, H2. reflexivity.
Qed.

Lemma connect_to_mongodb_unreachable (E : env) st :
  store_unreachable E -> exists st', connect_to_mongodb E st = (Ok false, st').
Proof.
  intros [c [H1|[H1 H2]]]; unfold connect_to_mongodb; monad_unfold.
  - rewrite H1. cbn. destruct c; cbn; eauto.
  - rewrite H1, H2. cbn. destruct c; cbn; eauto.
Qed.

Lemma close_connection_returns (E : env) st :
  exists st', close_connection st = (Ok tt, st')
              /\ log st' = log st ++ (if client st then [(INFO, ConnectionClosed)] else []).
Proof.
  unfold close_connection. monad_unfold.
  destruct (client st); eexists; (split; [reflexivity|]); simpl;
    [reflexivity|now rewrite app_nil_r].
Qed.

Lemma print_statistics_returns (E : env) st :
  exists r st', print_statistics E st = (r, st')
                /\ (r = Ok tt \/ r = Raise KeyboardInterrupt).
Proof.
  unfold print_statistics, count_documents. monad_unfold.
  destruct (count_documents_fault E) as [[c|]|]; cbn; eauto.
Qed.

Ltac main_step H :=
  rewrite H; repeat (cbn [negb is_KeyboardInterrupt is_Exception]; cbv beta iota).

Lemma main_not_connected (E : env) st st1 :
  connect_to_mongodb E st = (Ok false, st1) ->
  exists st', main E st = (Raise (SystemExit 1), st').
Proof.
  intros H. unfold main. monad_unfold. main_step H.
  destruct (close_connection_returns E (add_log ERROR FailedToConnectExiting st1))
    as (st' & Hc & _).
  main_step Hc. eauto.
Qed.

Lemma main_scan_failed (E : env) st st1 st2 :
  connect_to_mongodb E st = (Ok true, st1) ->
  process_log_file E st1 = (Ok false, st2) ->
  exists st',
    main E st = (Raise (SystemExit 1), st')
    /\ log st' = log st2 ++ (ERROR, ProcessingFailed)
                  :: (if client st2 then [(INFO, ConnectionClosed)] else []).
Proof.
  intros H1 H2. unfold main. monad_unfold. main_step H1. main_step H2.
  destruct (close_connection_returns E (add_log ERROR ProcessingFailed st2))
    as (st' & Hc & Hl).
  main_step Hc. exists st'. split; [reflexivity|].
  rewrite Hl. simpl. now rewrite <- app_assoc.
Qed.

Lemma main_scan_interrupted (E : env) st st1 st2 :
  connect_to_mongodb E st = (Ok true, st1) ->
  process_log_file E st1 = (Raise KeyboardInterrupt, st2) ->
  exists st', main E st = (Ok tt, st').
Proof.
  intros H1 H2. unfold main. monad_unfold. main_step H1. main_step H2.
  destruct (close_connection_returns E (add_log INFO InterruptedByUser st2))
    as (st' & Hc & _).
  main_step Hc. eauto.
Qed.

Lemma main_scan_succeeded (E : env) st st1 st2 :
  connect_to_mongodb E st = (Ok true, st1) ->
  process_log_file E st1 = (Ok true, st2) ->
  exists st', main E st = (Ok tt, st').
Proof.
  intros H1 H2. unfold main. monad_unfold. main_step H1. main_step H2.
  destruct (print_statistics_returns E st2) as (r & st3 & Hp & [-> | ->]);
    main_step Hp.
  - destruct (close_connection_returns E (add_log INFO CompletedSuccessfully st3))
      as (st' & Hc & _).
    main_step Hc. eauto.
  - destruct (close_connection_returns E (add_log INFO InterruptedByUser st3))
      as (st' & Hc & _).
    main_step Hc. eauto.
Qed.

Lemma run_exit (E : env) r st' :
  main E (IPProcessor_init E) = (r, st') -> run E = (exit_status r, st').
Proof. intros H. unfold run. rewrite H. reflexivity. Qed.

Lemma log_inv_init (E : env) ok : log_inv ok (IPProcessor_init E).
Proof. split; [reflexivity|]. intros l m []. Qed.

Lemma run_fst (E : env) r st' :
  main E (IPProcessor_init E) = (r, st') -> fst (run E) = exit_status r.
Proof. intros H. now rewrite (run_exit E r st' H). Qed.

Lemma run_snd (E : env) r st' :
  main E (IPProcessor_init E) = (r, st') -> snd (run E) = st'.
Proof. intros H. now rewrite (run_exit E r st' H). Qed.

(** ** Exit status *)

(** C8: the run ends with status 0 when the store is reachable, the file
    opens and is read to its end; it ends with a nonzero status (1) when the
    store is unreachable at start, when the log file is missing or cannot
    be opened, and when a read raises an error during the scan. *)
Theorem exit_codes (E : env) :
  (store_reachable E -> file_opens E -> read_fault E = None -> fst (run E) = 0)
  /\ (store_unreachable E -> fst (run E) = 1)
  /\ (store_reachable E -> file_cannot_be_opened E -> fst (run E) = 1)
  /\ (store_reachable E -> file_opens E -> no_interrupt_in_store E ->
      (exists c, read_fault E = Some (FaultExc c)) -> fst (run E) = 1).
Proof.
  repeat split.
  - intros Hr Hf Heof.
    pose proof (connect_to_mongodb_reachable E (IPProcessor_init E) Hr) as Hc.
    match type of Hc with _ = (_, ?s) => set (st1 := s) in * end.
    destruct (scan_lines E 1 (file_lines E) ∅ (add_log INFO StartProcessing st1))
      as [[P'|e] st2] eqn:Hs.
    + pose proof (process_log_file_scanned E st1 P' st2 Hf Hs) as Hp.
      rewrite Heof in Hp.
      destruct (main_scan_succeeded E _ _ _ Hc Hp) as (st' & Hm).
      now rewrite (run_fst E _ _ Hm).
    + pose proof (process_log_file_interrupted E st1 e st2 Hf Hs) as Hp.
      destruct (main_scan_interrupted E _ _ _ Hc Hp) as (st' & Hm).
      now rewrite (run_fst E _ _ Hm).
  - intros Hu.
    destruct (connect_to_mongodb_unreachable E (IPProcessor_init E) Hu) as (st1 & Hc).
    destruct (main_not_connected E _ _ Hc) as (st' & Hm).
    now rewrite (run_fst E _ _ Hm).
  - intros Hr Hno.
    pose proof (connect_to_mongodb_reachable E (IPProcessor_init E) Hr) as Hc.
    match type of Hc with _ = (_, ?s) => set (st1 := s) in * end.
    destruct (path_exists E) eqn:Hpath.
    + destruct Hno as [Hno|[c Hno]]; [congruence|].
      pose proof (process_log_file_unopenable E st1 c Hpath Hno) as Hp.
      destruct (main_scan_failed E _ _ _ Hc Hp) as (st' & Hm & _).
      now rewrite (run_fst E _ _ Hm).
    + pose proof (process_log_file_missing E st1 Hpath) as Hp.
      destruct (main_scan_failed E _ _ _ Hc Hp) as (st' & Hm & _).
      now rewrite (run_fst E _ _ Hm).
  - intros Hr Hf Hno [c Hread].
    pose proof (connect_to_mongodb_reachable E (IPProcessor_init E) Hr) as Hc.
    match type of Hc with _ = (_, ?s) => set (st1 := s) in * end.
    destruct (scan_lines_returns E (file_lines E) 1 ∅
                (add_log INFO StartProcessing st1) Hno) as (P' & st2 & Hs).
    pose proof (process_log_file_scanned E st1 P' st2 Hf Hs) as Hp.
    rewrite Hread in Hp.
    destruct (main_scan_failed E _ _ _ Hc Hp) as (st' & Hm & _).
    now rewrite (run_fst E _ _ Hm).
Qed.

Lemma exit_codes_witness :
  fst (run env_ok) = 0 /\ fst (run env_unreachable) = 1
  /\ fst (run env_no_file) = 1 /\ fst (run env_read_error) = 1.
Proof.
  split; [|split; [|split]].
  - apply (proj1 (exit_codes env_ok)); [split; reflexivity|split; reflexivity|reflexivity].
  - apply (proj1 (proj2 (exit_codes env_unreachable))).
    exists ConnectionFailure. right. split; reflexivity.
  - apply (proj1 (proj2 (proj2 (exit_codes env_no_file)))); [split; reflexivity|].
    left. reflexivity.
  - apply (proj2 (proj2 (proj2 (exit_codes env_read_error))));
      [split; reflexivity|split; reflexivity|intros n; discriminate|].
    exists OSError. reflexivity.
Defined.

(** ** A read error during the scan *)

(** C6, as the code has it: when a read raises an error after some lines
    have been scanned, [process_log_file] logs it and returns [False], and
    [main] logs "IP processing failed!" and exits with status 1 without
    calling [print_statistics]: no statistics record is in the log. *)
Theorem read_error_exits_without_statistics (E : env) (c : exc_class) :
  store_reachable E -> file_opens E -> no_interrupt_in_store E ->
  read_fault E = Some (FaultExc c) ->
  fst (run E) = 1
  /\ (forall l m, In (l, m) (log (snd (run E))) -> is_statistics m = false)
  /\ In (ERROR, ErrorProcessingLogFile (Exc c)) (log (snd (run E)))
  /\ In (ERROR, ProcessingFailed) (log (snd (run E))).
Proof.
  intros Hr Hf Hno Hread.
  pose proof (connect_to_mongodb_reachable E (IPProcessor_init E) Hr) as Hc.
  match type of Hc with _ = (_, ?s) => set (st1 := s) in * end.
  destruct (scan_lines_returns E (file_lines E) 1 ∅
              (add_log INFO StartProcessing st1) Hno) as (P' & st2 & Hs).
  assert (Hinv : log_inv not_statistics st2).
  { eapply (preserves_scan_lines not_statistics E); [reflexivity|reflexivity| |exact Hs].
    subst st1. repeat apply log_inv_add_log; try reflexivity.
    apply log_inv_init. }
  pose proof (process_log_file_scanned E st1 P' st2 Hf Hs) as Hp.
  rewrite Hread in Hp.
  destruct (main_scan_failed E _ _ _ Hc Hp) as (st' & Hm & Hlog).
  rewrite (run_fst E _ _ Hm), (run_snd E _ _ Hm), Hlog.
  split; [reflexivity|]. split; [|split].
  - intros l m Hin. apply in_app_or in Hin as [Hin|Hin].
    + simpl in Hin. apply in_app_or in Hin as [Hin|[[= <- <-]|[]]]; [|reflexivity].
      destruct Hinv as [_ Hl]. apply Hl in Hin.
      unfold not_statistics in Hin. now apply negb_true_iff in Hin.
    + destruct Hin as [[= <- <-]|Hin]; [reflexivity|].
      destruct (client _); [|destruct Hin].
      destruct Hin as [[= <- <-]|[]]. reflexivity.
  - apply in_or_app. left. simpl. apply in_or_app. right. left. reflexivity.
  - apply in_or_app. right. left. reflexivity.
Qed.

Lemma read_error_exits_without_statistics_witness :
  fst (run env_read_error) = 1
  /\ In (ERROR, ProcessingFailed) (log (snd (run env_read_error))).
Proof.
  destruct (read_error_exits_without_statistics env_read_error OSError)
    as (H1 & _ & _ & H2).
  - split; reflexivity.
  - split; reflexivity.
  - intros n. discriminate.
  - reflexivity.
  - split; [exact H1|exact H2].
Defined.

(** C6 as the claim has it fails: here the read after the two lines
    raises; four addresses have been counted by then, the run exits with
    status 1, and the log holds none of the statistics records. *)
Lemma read_error_counterexample :
  read_fault env_read_error = Some (FaultExc OSError)
  /\ fst (run env_read_error) = 1
  /\ total_ips_found (stats (snd (run env_read_error))) = 4
  /\ ~ (exists l m, In (l, m) (log (snd (run env_read_error)))
                    /\ is_statistics m = true).
Proof.
  split; [reflexivity|]. split; [vm_compute; reflexivity|].
  split; [vm_compute; reflexivity|].
  intros (l & m & Hin & Hs).
  assert (Hall : forallb (fun p => negb (is_statistics (snd p)))
                   (log (snd (run env_read_error))) = true)
    by (vm_compute; reflexivity).
  apply (proj1 (forallb_forall _ _) Hall) in Hin. simpl in Hin.
  rewrite Hs in Hin. discriminate.
Qed.

(** ** The "Unique IPs from file" statistic *)

Section RunKeepsLog.

Variable E : env.

Lemma preserves_connect_to_mongodb :
  preserves (log_inv unique_zero) (connect_to_mongodb E).
Proof. unfold connect_to_mongodb. repeat preserves_step; reflexivity. Qed.

Lemma preserves_process_log_file :
  preserves (log_inv unique_zero) (process_log_file E).
Proof.
  unfold process_log_file. repeat preserves_step; try reflexivity.
  apply preserves_scan_lines; reflexivity.
Qed.

Lemma preserves_print_statistics :
  preserves (log_inv unique_zero) (print_statistics E).
Proof.
  unfold print_statistics, count_documents.
  repeat preserves_step; try reflexivity.
Qed.

Lemma preserves_close_connection :
  preserves (log_inv unique_zero) close_connection.
Proof. unfold close_connection. repeat preserves_step; reflexivity. Qed.

Lemma preserves_main : preserves (log_inv unique_zero) (main E).
Proof.
  unfold main.
  repeat preserves_step;
    auto using preserves_connect_to_mongodb, preserves_process_log_file,
               preserves_print_statistics, preserves_close_connection.
Qed.

End RunKeepsLog.

(** C10: in every run the object never gets an attribute [processed_ips]
    (the set is a local variable of [process_log_file]), so every
    "Unique IPs from file" record that [print_statistics] logs carries 0. *)
Theorem unique_ips_from_file_is_zero (E : env) :
  attr_processed_ips (snd (run E)) = None
  /\ forall l n, In (l, UniqueIPsFromFile n) (log (snd (run E))) -> n = 0.
Proof.
  destruct (main E (IPProcessor_init E)) as [r st'] eqn:Hm.
  rewrite (run_snd E r st' Hm).
  destruct (preserves_main E _ _ _ (log_inv_init E unique_zero) Hm) as [Ha Hl].
  split; [exact Ha|].
  intros l n Hin. apply Hl in Hin. simpl in Hin. now apply Z.eqb_eq in Hin.
Qed.

Lemma unique_ips_from_file_is_zero_witness :
  In (INFO, UniqueIPsFromFile 0) (log (snd (run env_ok)))
  /\ total_ips_found (stats (snd (run env_ok))) = 4
  /\ 0 = 0.
Proof.
  assert (Hin : In (INFO, UniqueIPsFromFile 0) (log (snd (run env_ok)))).
  { vm_compute. do 8 right. left. reflexivity. }
  split; [exact Hin|]. split; [vm_compute; reflexivity|].
  exact (proj2 (unique_ips_from_file_is_zero env_ok) INFO 0 Hin).
Defined.

(** ** Scenarios *)

Example classify_private : is_private_ip (py "192.168.1.10") = Ok true.
Proof. vm_compute. reflexivity. Qed.

Example classify_public : is_private_ip (py "8.8.8.8") = Ok false.
Proof. vm_compute. reflexivity. Qed.

Example classify_edge_of_172 :
  is_private_ip (py "172.15.255.255") = Ok false
  /\ is_private_ip (py "172.16.0.0") = Ok true
  /\ is_private_ip (py "172.31.255.255") = Ok true
  /\ is_private_ip (py "172.32.0.0") = Ok false.
Proof. vm_compute. auto. Qed.

Example validate_rejects :
  is_valid_ip (py "999.1.1.1") = Ok false
  /\ is_valid_ip (py "01.1.1.1") = Ok false
  /\ is_valid_ip (py "0.1.1.255") = Ok true.
Proof. vm_compute. auto. Qed.

Example candidates_of_a_line :
  findall env_ok (py "999.1.1.1 1.2.3.4.5 a1.2.3.4 1.2.3.4_ 1234.1.1.1 01.2.3.4,5.6.7.8")
  = [py "999.1.1.1"; py "1.2.3.4"; py "01.2.3.4"; py "5.6.7.8"].
Proof. vm_compute. reflexivity. Qed.

Example extract_scenario :
  extract_ips_from_line env_ok
    (py "req from 192.168.1.10 to 8.8.8.8 and 192.168.1.10 again")
  = Ok [py "192.168.1.10"; py "8.8.8.8"; py "192.168.1.10"].
Proof. vm_compute. reflexivity. Qed.

Example scan_scenario :
  let E := quiet_env [py "req from 192.168.1.10 to 8.8.8.8 and 192.168.1.10 again"] in
  let st := snd (process_log_file E (IPProcessor_init E)) in
  stats st
  = {| total_lines_processed := 1; total_ips_found := 3;
       unique_public_ips_stored := 1; unique_private_ips_stored := 1;
       duplicate_ips_skipped := 0; within_file_duplicates := 1 |}
  /\ update_calls st = [(py "192.168.1.10", true); (py "8.8.8.8", false)].
Proof. vm_compute. auto. Qed.

Example rescan_scenario :
  let st := snd (process_log_file env_rescan (IPProcessor_init env_rescan)) in
  unique_private_ips_stored (stats st) = 0
  /\ duplicate_ips_skipped (stats st) = 1
  /\ unique_public_ips_stored (stats st) = 1.
Proof. vm_compute. auto. Qed.

Example empty_file_scenario :
  stats (snd (process_log_file (quiet_env []) (IPProcessor_init (quiet_env []))))
  = init_stats.
Proof. vm_compute. reflexivity. Qed.

(** * Further properties *)

(** ** Valid address strings *)

Lemma digit_not_dot c : is_ascii_digit c = true -> (c =? dot)%N = false.
Proof.
  unfold is_ascii_digit, dot. intros H. apply andb_prop in H as [H1 H2].
  apply N.leb_le in H1. apply N.eqb_neq. lia.
Qed.

Lemma digit_not_slash c : is_ascii_digit c = true -> (slash =? c)%N = false.
Proof.
  unfold is_ascii_digit, slash. intros H. apply andb_prop in H as [H1 H2].
  apply N.leb_le in H1. apply N.eqb_neq. lia.
Qed.

Lemma split_digits o :
  forallb is_ascii_digit o = true -> split dot o = [o].
Proof.
  induction o as [|c r IH]; simpl; [reflexivity|].
  intros H. apply andb_prop in H as [Hc Hr].
  rewrite (digit_not_dot c Hc), (IH Hr). reflexivity.
Qed.

Lemma split_digits_dot o rest :
  forallb is_ascii_digit o = true ->
  split dot (o ++ dot :: rest) = o :: split dot rest.
Proof.
  induction o as [|c r IH]; simpl; [reflexivity|].
  intros H. apply andb_prop in H as [Hc Hr].
  rewrite (digit_not_dot c Hc), (IH Hr). reflexivity.
Qed.

Lemma no_slash_digits o :
  forallb is_ascii_digit o = true -> existsb (N.eqb slash) o = false.
Proof.
  induction o as [|c r IH]; cbn [existsb forallb]; [reflexivity|].
  intros H. apply andb_prop in H as [Hc Hr].
  rewrite (digit_not_slash c Hc), (IH Hr). reflexivity.
Qed.

Lemma parse_octet_canonical o n :
  ipaddress.parse_octet o = Ok n <-> canonical_octet o /\ n = int_base10 o.
Proof.
  unfold ipaddress.parse_octet, canonical_octet. split.
  - destruct o as [|c0 rest]; [discriminate|].
    destruct (forallb is_ascii_digit (c0 :: rest)) eqn:Hd; cbn [negb]; [|discriminate].
    destruct (3 <? length (c0 :: rest))%nat eqn:Hlen; [discriminate|].
    destruct ((c0 =? 48)%N && negb (length rest =? 0)%nat) eqn:Hz; [discriminate|].
    destruct (255 <? int_base10 (c0 :: rest)) eqn:Hle; [discriminate|].
    intros [= <-]. apply Z.ltb_ge in Hle. apply Nat.ltb_ge in Hlen.
    repeat split; try assumption; try discriminate.
    apply andb_false_iff in Hz as [Hz|Hz].
    + right. simpl. apply N.eqb_neq in Hz. congruence.
    + left. apply negb_false_iff, Nat.eqb_eq in Hz. simpl. now rewrite Hz.
  - intros [(Hne & Hd & Hlen & Hz & Hle) ->].
    destruct o as [|c0 rest]; [contradiction|].
    rewrite Hd. cbn [negb].
    destruct (3 <? length (c0 :: rest))%nat eqn:Hl;
      [apply Nat.ltb_lt in Hl; lia|].
    assert (Hz' : (c0 =? 48)%N && negb (length rest =? 0)%nat = false).
    { destruct Hz as [Hz|Hz].
      - simpl in Hz. injection Hz as Hz. rewrite Hz. simpl. apply andb_false_r.
      - simpl in Hz. destruct (N.eqb_spec c0 48) as [->|]; [congruence|reflexivity]. }
    rewrite Hz'.
    destruct (255 <? int_base10 (c0 :: rest)) eqn:Hb;
      [apply Z.ltb_lt in Hb; lia|reflexivity].
Qed.

(** X1: [is_valid_ip] returns a boolean on every string, and [True] exactly
    on four dot-separated groups, each of one to three ASCII digits, without
    a leading zero (unless the group is "0") and of value at most 255. *)
Theorem is_valid_ip_iff_canonical (s : str) :
  (exists b, is_valid_ip s = Ok b)
  /\ (is_valid_ip s = Ok true
      <-> exists o1 o2 o3 o4,
            s = o1 ++ dot :: o2 ++ dot :: o3 ++ dot :: o4
            /\ canonical_octet o1 /\ canonical_octet o2
            /\ canonical_octet o3 /\ canonical_octet o4).
Proof.
  rewrite is_valid_ip_parses. split; [eauto|]. split.
  - intros [= Hp]. unfold parses in Hp.
    destruct (ipaddress.IPv4Address s) as [ip|] eqn:H; [|discriminate].
    apply IPv4Address_ok in H
      as (o1 & o2 & o3 & o4 & n1 & n2 & n3 & n4 & Hs & H1 & H2 & H3 & H4 & _).
    exists o1, o2, o3, o4. split.
    + rewrite <- (join_split dot s), Hs. reflexivity.
    + apply parse_octet_canonical in H1 as [? _], H2 as [? _], H3 as [? _], H4 as [? _].
      auto.
  - intros (o1 & o2 & o3 & o4 & -> & C1 & C2 & C3 & C4).
    pose proof C1 as (Hne1 & Hd1 & _). pose proof C2 as (_ & Hd2 & _).
    pose proof C3 as (_ & Hd3 & _). pose proof C4 as (_ & Hd4 & _).
    f_equal. unfold parses, ipaddress.IPv4Address, ipaddress.ip_int_from_string.
    rewrite !existsb_app. cbn [existsb]. rewrite !existsb_app. cbn [existsb].
    rewrite !existsb_app. cbn [existsb].
    rewrite !no_slash_digits by assumption. cbn.
    destruct (o1 ++ dot :: o2 ++ dot :: o3 ++ dot :: o4) as [|c r] eqn:Hs;
      [destruct o1; [contradiction|discriminate]|].
    rewrite <- Hs. rewrite !split_digits_dot, split_digits by assumption.
    cbn [length Nat.eqb negb rmap].
    rewrite (proj2 (parse_octet_canonical o1 _) (conj C1 eq_refl)).
    rewrite (proj2 (parse_octet_canonical o2 _) (conj C2 eq_refl)).
    rewrite (proj2 (parse_octet_canonical o3 _) (conj C3 eq_refl)).
    rewrite (proj2 (parse_octet_canonical o4 _) (conj C4 eq_refl)).
    reflexivity.
Qed.

Lemma is_valid_ip_iff_canonical_witness :
  is_valid_ip (py "10.0.255.7") = Ok true.
Proof.
  apply (proj2 (proj2 (is_valid_ip_iff_canonical (py "10.0.255.7")))).
  exists (py "10"), (py "0"), (py "255"), (py "7").
  split; [reflexivity|].
  repeat split; try discriminate; try reflexivity; cbn; try lia;
    solve [left; reflexivity | right; discriminate].
Defined.

Lemma digit_bounds c : is_ascii_digit c = true -> (48 <= c <= 57)%N.
Proof.
  unfold is_ascii_digit. intros H. apply andb_prop in H as [H1 H2].
  apply N.leb_le in H1, H2. lia.
Qed.

Lemma canonical_octet_value_injective o1 o2 :
  canonical_octet o1 -> canonical_octet o2 ->
  int_base10 o1 = int_base10 o2 -> o1 = o2.
Proof.
  intros (Hne1 & Hd1 & Hl1 & Hz1 & _) (Hne2 & Hd2 & Hl2 & Hz2 & _).
  destruct o1 as [|a1 [|b1 [|c1 [|? ?]]]]; try contradiction; simpl in Hl1; try lia;
  destruct o2 as [|a2 [|b2 [|c2 [|? ?]]]]; try contradiction; simpl in Hl2; try lia;
  cbn [forallb] in Hd1, Hd2;
  repeat match goal with
         | H : _ && _ = true |- _ => apply andb_prop in H as [? ?]
         | H : is_ascii_digit _ = true |- _ => apply digit_bounds in H
         end;
  (destruct Hz1 as [Hz1|Hz1]; [simpl in Hz1; try discriminate|]);
  (destruct Hz2 as [Hz2|Hz2]; [simpl in Hz2; try discriminate|]);
  simpl in *;
  try (assert (a1 <> 48%N) by congruence);
  try (assert (a2 <> 48%N) by congruence);
  unfold int_base10, digit_value; cbn [fold_left]; intros Hv;
  repeat f_equal; lia.
Qed.

Lemma ipv4_injective a1 b1 c1 d1 a2 b2 c2 d2 :
  0 <= a1 <= 255 -> 0 <= b1 <= 255 -> 0 <= c1 <= 255 -> 0 <= d1 <= 255 ->
  0 <= a2 <= 255 -> 0 <= b2 <= 255 -> 0 <= c2 <= 255 -> 0 <= d2 <= 255 ->
  ipv4 a1 b1 c1 d1 = ipv4 a2 b2 c2 d2 ->
  a1 = a2 /\ b1 = b2 /\ c1 = c2 /\ d1 = d2.
Proof. unfold ipv4. lia. Qed.

(** X2: two strings that [IPv4Address] accepts and that denote the same
    address are the same string, so a set of valid address strings, such as
    [processed_ips], holds one element per address. *)
Theorem valid_address_string_unique (s1 s2 : str) (ip : Z) :
  ipaddress.IPv4Address s1 = Ok ip -> ipaddress.IPv4Address s2 = Ok ip -> s1 = s2.
Proof.
  intros H1 H2.
  apply IPv4Address_ok in H1
    as (o1 & o2 & o3 & o4 & n1 & n2 & n3 & n4 & Hs1 & P1 & P2 & P3 & P4 & E1).
  apply IPv4Address_ok in H2
    as (p1 & p2 & p3 & p4 & m1 & m2 & m3 & m4 & Hs2 & Q1 & Q2 & Q3 & Q4 & E2).
  pose proof (parse_octet_ok _ _ P1) as (_ & _ & _ & ?).
  pose proof (parse_octet_ok _ _ P2) as (_ & _ & _ & ?).
  pose proof (parse_octet_ok _ _ P3) as (_ & _ & _ & ?).
  pose proof (parse_octet_ok _ _ P4) as (_ & _ & _ & ?).
  pose proof (parse_octet_ok _ _ Q1) as (_ & _ & _ & ?).
  pose proof (parse_octet_ok _ _ Q2) as (_ & _ & _ & ?).
  pose proof (parse_octet_ok _ _ Q3) as (_ & _ & _ & ?).
  pose proof (parse_octet_ok _ _ Q4) as (_ & _ & _ & ?).
  rewrite E1 in E2.
  apply ipv4_injective in E2 as (-> & -> & -> & ->); try assumption.
  apply parse_octet_canonical in P1 as [C1 V1], P2 as [C2 V2], P3 as [C3 V3],
    P4 as [C4 V4], Q1 as [D1 W1], Q2 as [D2 W2], Q3 as [D3 W3], Q4 as [D4 W4].
  rewrite <- (join_split dot s1), <- (join_split dot s2), Hs1, Hs2.
  rewrite (canonical_octet_value_injective o1 p1), (canonical_octet_value_injective o2 p2),
    (canonical_octet_value_injective o3 p3), (canonical_octet_value_injective o4 p4);
    congruence.
Qed.

Lemma valid_address_string_unique_witness : py "8.8.8.8" = py "8.8.8.8".
Proof.
  apply (valid_address_string_unique (py "8.8.8.8") (py "8.8.8.8") 134744072);
    vm_compute; reflexivity.
Defined.

(** ** Where the extracted addresses come from *)

Lemma digit_runs_split n : forall s d r,
  In (d, r) (digit_runs n s) -> s = d ++ r /\ d <> [].
Proof.
  induction n as [|n IH]; intros s d r; simpl; [intros []|].
  destruct s as [|c s']; [intros []|].
  destruct (is_ascii_digit c); [|intros []].
  intros Hin. apply in_app_or in Hin as [Hin|[[= <- <-]|[]]].
  - apply in_map_iff in Hin as ([d' r'] & [= <- <-] & Hin).
    apply IH in Hin as [-> _]. split; [reflexivity|discriminate].
  - split; [reflexivity|discriminate].
Qed.

Lemma first_match_some {A B} (f : A -> option B) l y :
  first_match f l = Some y -> exists x, In x l /\ f x = Some y.
Proof.
  induction l as [|x r IH]; simpl; [discriminate|].
  destruct (f x) eqn:Hx.
  - intros [= <-]. eauto.
  - intros H. destruct (IH H) as (x' & Hin & Hf). eauto.
Qed.

Lemma match_octets_split E n : forall s m r,
  match_octets E n s = Some (m, r) -> s = m ++ r /\ m <> [].
Proof.
  induction n as [|n IH]; intros s m r; simpl; intros H;
    apply first_match_some in H as ([d rest] & Hin & Hf);
    apply (digit_runs_split 3) in Hin as [-> Hd].
  - destruct (word_boundary E (last d) (head rest)); [|discriminate].
    injection Hf as <- <-. auto.
  - destruct rest as [|c rest']; [discriminate|].
    destruct (c =? dot)%N eqn:Hc; [|discriminate].
    apply N.eqb_eq in Hc. subst c.
    destruct (match_octets E n rest') as [[m' r']|] eqn:Hm; [|discriminate].
    injection Hf as <- <-. apply IH in Hm as [-> _].
    split; [now rewrite <- app_assoc|].
    destruct d; [contradiction|discriminate].
Qed.

Lemma occur_in_order_cons ms c s :
  occur_in_order ms s -> occur_in_order ms (c :: s).
Proof.
  destruct ms as [|m r]; simpl; [auto|].
  intros (pre & post & -> & H). exists (c :: pre), post. auto.
Qed.

Lemma occur_in_order_drop ms n s :
  occur_in_order ms (drop n s) -> occur_in_order ms s.
Proof.
  revert s. induction n as [|n IH]; intros s; [now rewrite drop_0|].
  destruct s as [|c s']; simpl; [auto|].
  intros H. apply occur_in_order_cons. now apply IH.
Qed.

Lemma findall_from_in_order E s : forall prev skip,
  occur_in_order (findall_from E prev skip s) (drop skip s).
Proof.
  induction s as [|c r IH]; intros prev skip; simpl.
  - destruct skip; exact I.
  - destruct skip as [|k]; [|apply IH].
    rewrite drop_0. unfold match_at.
    destruct (word_boundary E prev (head (c :: r)));
      [|apply occur_in_order_cons; rewrite <- (drop_0 r); apply IH].
    destruct (match_octets E 3 (c :: r)) as [[m rest]|] eqn:Hm;
      [|apply occur_in_order_cons; rewrite <- (drop_0 r); apply IH].
    apply match_octets_split in Hm as [Hs Hne].
    destruct m as [|c' m']; [contradiction|].
    injection Hs as <- ->.
    exists [], (drop (length (c :: m') - 1) (m' ++ rest)). split.
    + simpl. rewrite Nat.sub_0_r, drop_app_length. reflexivity.
    + apply IH.
Qed.

Lemma occur_in_order_filter (p : str -> bool) ms : forall s,
  occur_in_order ms s -> occur_in_order (List.filter p ms) s.
Proof.
  induction ms as [|m r IH]; intros s; simpl; [auto|].
  intros (pre & post & -> & H). apply IH in H.
  destruct (p m).
  - exists pre, post. auto.
  - rewrite app_assoc. remember (pre ++ m) as q.
    clear -H. induction q as [|c q IHq]; simpl; [exact H|].
    now apply occur_in_order_cons.
Qed.

(** X3: the addresses [extract_ips_from_line] returns are substrings of
    the line, found one after the other without overlap, in the order in
    which the list holds them. *)
Theorem extract_ips_from_line_in_order (E : env) (line : str) :
  exists ips,
    extract_ips_from_line E line = Ok ips /\ occur_in_order ips line.
Proof.
  exists (List.filter parses (findall E line)).
  split; [apply extract_ips_from_line_eq|].
  apply occur_in_order_filter. unfold findall.
  rewrite <- (drop_0 line) at 2. apply findall_from_in_order.
Qed.

(** ** What a store call does to the collections *)

Lemma upsert_cases ip doc coll :
  (records_for ip coll = [] /\ upsert ip doc coll = (true, coll ++ [doc]))
  \/ (records_for ip coll <> [] /\ upsert ip doc coll = (false, coll)).
Proof.
  unfold upsert.
  destruct (existsb (fun d => bool_decide (doc_ip d = ip)) coll) eqn:Hex.
  - right. split; [|reflexivity].
    intros Hnil. apply records_for_nil_iff in Hnil. congruence.
  - left. split; [|reflexivity]. now apply records_for_nil_iff.
Qed.

Lemma store_ip_in_mongodb_cases (E : env) (ip : str) (b : bool) (st : state) :
  let st1 := add_update_call ip b st in
  (exists c, update_one_fault E (length (update_calls st)) = Some (FaultExc c)
             /\ store_ip_in_mongodb E ip b st
                = (Ok false, add_log ERROR (ErrorStoringIP ip (Exc c)) st1))
  \/ (update_one_fault E (length (update_calls st)) = Some FaultInterrupt
      /\ store_ip_in_mongodb E ip b st = (Raise KeyboardInterrupt, st1))
  \/ (update_one_fault E (length (update_calls st)) = None
      /\ records_for ip (collection_of b st) = []
      /\ store_ip_in_mongodb E ip b st
         = (Ok true, set_collection b (collection_of b st ++ [document_of ip b]) st1))
  \/ (update_one_fault E (length (update_calls st)) = None
      /\ records_for ip (collection_of b st) <> []
      /\ store_ip_in_mongodb E ip b st
         = (Ok false, set_collection b (collection_of b st) st1)).
Proof.
  intros st1.
  destruct (update_one_fault E (length (update_calls st))) as [[c|]|] eqn:Hf.
  - left. exists c. split; [reflexivity|]. now apply store_ip_in_mongodb_error.
  - right; left. split; [reflexivity|]. now apply store_ip_in_mongodb_interrupted.
  - right; right.
    pose proof (store_ip_in_mongodb_answered E ip b st Hf) as H. cbv zeta in H.
    change (collection_of b (add_update_call ip b st)) with (collection_of b st) in H.
    fold (document_of ip b) in H.
    destruct (upsert_cases ip (document_of ip b) (collection_of b st))
      as [[Hr Hu]|[Hr Hu]]; rewrite Hu in H; [left|right]; auto.
Qed.

Lemma unique_ips_snoc coll d :
  unique_ips coll -> records_for (doc_ip d) coll = [] -> unique_ips (coll ++ [d]).
Proof.
  unfold unique_ips. intros Hu Hr. rewrite map_app. simpl.
  apply NoDup_app. split; [exact Hu|]. split; [|apply NoDup_singleton].
  intros x Hx Hx'. apply list_elem_of_singleton in Hx'. subst x.
  apply list_elem_of_In, in_map_iff in Hx as (d' & Hd' & Hin).
  assert (Hin' : In d' (records_for (doc_ip d) coll)).
  { unfold records_for. apply filter_In. split; [exact Hin|].
    now apply bool_decide_eq_true_2. }
  rewrite Hr in Hin'. destruct Hin'.
Qed.

Lemma records_for_unique ip coll :
  unique_ips coll -> (length (records_for ip coll) <= 1)%nat.
Proof.
  unfold unique_ips. induction coll as [|d r IH]; simpl; [lia|].
  intros Hu. apply NoDup_cons in Hu as [Hd Hr].
  destruct (bool_decide (doc_ip d = ip)) eqn:Hb; [|now apply IH].
  apply bool_decide_eq_true in Hb. simpl.
  assert (Hnil : records_for ip r = []).
  { destruct (records_for ip r) as [|d' t] eqn:Hrec; [reflexivity|].
    exfalso. apply Hd. rewrite Hb.
    assert (Hin : In d' (records_for ip r)) by (rewrite Hrec; now left).
    apply filter_In in Hin as [Hin Hip]. apply bool_decide_eq_true in Hip.
    apply list_elem_of_In, in_map_iff. eauto. }
  rewrite Hnil. simpl. lia.
Qed.

(** X5: [store_ip_in_mongodb] keeps the unique index: if no two documents
    of the collection share an address before the call, none do after it;
    and after a call that the store answers, the collection holds exactly
    one document for the address. *)
Theorem store_ip_in_mongodb_keeps_unique_index
    (E : env) (ip : str) (is_private : bool) (st st' : state) (r : result bool) :
  unique_ips (collection_of is_private st) ->
  store_ip_in_mongodb E ip is_private st = (r, st') ->
  unique_ips (collection_of is_private st')
  /\ (update_one_fault E (length (update_calls st)) = None ->
      length (records_for ip (collection_of is_private st')) = 1%nat).
Proof.
  intros Hu H.
  destruct (store_ip_in_mongodb_cases E ip is_private st)
    as [(c & Hf & Heq)|[(Hf & Heq)|[(Hf & Hr & Heq)|(Hf & Hr & Heq)]]];
    rewrite Heq in H; injection H as <- <-.
  - split; [destruct is_private; exact Hu|congruence].
  - split; [destruct is_private; exact Hu|congruence].
  - rewrite collection_of_set_collection, Bool.eqb_reflx.
    split; [apply unique_ips_snoc; assumption|].
    intros _. rewrite records_for_app, Hr. cbn.
    now rewrite bool_decide_eq_true_2.
  - rewrite collection_of_set_collection, Bool.eqb_reflx.
    split; [exact Hu|]. intros _.
    pose proof (records_for_unique ip _ Hu).
    destruct (records_for ip (collection_of is_private st)); [contradiction|].
    simpl in *. lia.
Qed.

Lemma store_ip_in_mongodb_keeps_unique_index_witness :
  unique_ips (collection_of true
                (snd (store_ip_in_mongodb env_rescan (py "192.168.1.10") true
                        (IPProcessor_init env_rescan)))).
Proof.
  apply (store_ip_in_mongodb_keeps_unique_index env_rescan (py "192.168.1.10") true
           (IPProcessor_init env_rescan) _
           (fst (store_ip_in_mongodb env_rescan (py "192.168.1.10") true
                   (IPProcessor_init env_rescan)))).
  - unfold unique_ips. cbn. apply NoDup_singleton.
  - apply surjective_pairing.
Defined.

(** ** Invariants of the state along every path *)

Lemma preserves_bind_lift {A B} I (x : result A) (k : A -> M B) :
  (forall a, x = Ok a -> preserves I (k a)) -> preserves I (bind (lift x) k).
Proof.
  intros Hk st r st' HI. unfold bind, lift.
  destruct x as [a|e].
  - apply (Hk a eq_refl). exact HI.
  - intros [= _ <-]. exact HI.
Qed.

Ltac frame_step :=
  lazymatch goal with
  | |- preserves _ (bind (lift _) _) => apply preserves_bind_lift; intros ? ?
  | |- preserves _ (bind _ _) => apply preserves_bind; [|intros ?]
  | |- preserves _ (ret _) => apply preserves_ret
  | |- preserves _ (raise _) => apply preserves_raise
  | |- preserves _ (sys_exit _) => apply preserves_sys_exit
  | |- preserves _ (lift _) => apply preserves_lift
  | |- preserves _ (gets _) => apply preserves_gets
  | |- preserves _ (external _) => apply preserves_external
  | |- preserves _ (incr _) => unfold incr; apply preserves_modify; intros ? ?
  | |- preserves _ (logger_info _) =>
      unfold logger_info; apply preserves_modify; intros ? ?
  | |- preserves _ (logger_error _) =>
      unfold logger_error; apply preserves_modify; intros ? ?
  | |- preserves _ (modify _) => apply preserves_modify; intros ? ?
  | |- preserves _ (try_except _ _) =>
      apply preserves_try_except; [|preserves_handler]
  | |- preserves _ (try_finally _ _) => apply preserves_try_finally
  | |- preserves _ (if ?b then _ else _) => destruct b
  | |- preserves _ (match ?x with _ => _ end) => destruct x
  end.

Lemma set_collection_same b st : set_collection b (collection_of b st) st = st.
Proof. destruct st, b; reflexivity. Qed.

Section Invariant.

Variable E : env.
Variable I : state -> Prop.

Hypothesis I_add_log : forall l m st, I st -> I (add_log l m st).
Hypothesis I_set_client : forall st, I st -> I (set_client true st).
Hypothesis I_add_skipped : forall ip st, I st -> I (add_skipped ip st).
Hypothesis I_lines :
  forall st, I st -> I (set_stats (incr_total_lines_processed (stats st)) st).
Hypothesis I_found :
  forall st, I st -> I (set_stats (incr_total_ips_found (stats st)) st).
Hypothesis I_within :
  forall st, I st -> I (set_stats (incr_within_file_duplicates (stats st)) st).
Hypothesis I_public :
  forall st, I st -> I (set_stats (incr_unique_public_ips_stored (stats st)) st).
Hypothesis I_private :
  forall st, I st -> I (set_stats (incr_unique_private_ips_stored (stats st)) st).
Hypothesis I_duplicate :
  forall st, I st -> I (set_stats (incr_duplicate_ips_skipped (stats st)) st).
Hypothesis I_add_update_call :
  forall ip b st, is_private_ip ip = Ok b -> I st -> I (add_update_call ip b st).
Hypothesis I_append :
  forall ip b st,
    is_private_ip ip = Ok b -> I st -> records_for ip (collection_of b st) = [] ->
    I (set_collection b (collection_of b st ++ [document_of ip b]) st).

Lemma inv_store_ip_in_mongodb ip b :
  is_private_ip ip = Ok b -> preserves I (store_ip_in_mongodb E ip b).
Proof.
  intros Hb st r st' HI H.
  pose proof (I_add_update_call ip b st Hb HI) as HI1.
  destruct (store_ip_in_mongodb_cases E ip b st)
    as [(c & _ & Heq)|[(_ & Heq)|[(_ & Hr & Heq)|(_ & Hr & Heq)]]];
    rewrite Heq in H; injection H as <- <-.
  - now apply I_add_log.
  - exact HI1.
  - apply (I_append ip b (add_update_call ip b st) Hb HI1). exact Hr.
  - change (collection_of b st) with (collection_of b (add_update_call ip b st)).
    now rewrite set_collection_same.
Qed.

Lemma inv_process_ip ip P : preserves I (process_ip E ip P).
Proof.
  unfold process_ip.
  repeat frame_step; auto using inv_store_ip_in_mongodb.
Qed.

Lemma inv_scan_ips l : forall P, preserves I (scan_ips E l P).
Proof.
  induction l as [|ip r IH]; intros P; simpl;
    repeat frame_step; auto using inv_process_ip.
Qed.

Lemma inv_process_line n line P : preserves I (process_line E n line P).
Proof. unfold process_line. repeat frame_step; auto using inv_scan_ips. Qed.

Lemma inv_scan_lines lines : forall n P, preserves I (scan_lines E n lines P).
Proof.
  induction lines as [|line r IH]; intros n P; simpl;
    repeat frame_step; auto using inv_process_line.
Qed.

Lemma inv_process_log_file : preserves I (process_log_file E).
Proof.
  unfold process_log_file. repeat frame_step; auto using inv_scan_lines.
Qed.

Lemma inv_connect_to_mongodb : preserves I (connect_to_mongodb E).
Proof. unfold connect_to_mongodb. repeat frame_step; auto. Qed.

Lemma inv_print_statistics : preserves I (print_statistics E).
Proof. unfold print_statistics, count_documents. repeat frame_step; auto. Qed.

Lemma inv_close_connection : preserves I close_connection.
Proof. unfold close_connection. repeat frame_step; auto. Qed.

Lemma inv_main : preserves I (main E).
Proof.
  unfold main.
  repeat frame_step;
    auto using inv_connect_to_mongodb, inv_process_log_file,
               inv_print_statistics, inv_close_connection.
Qed.

End Invariant.

(** ** Documents are only appended, each to its own collection *)

Lemma appended_to_append p0 q0 ip b st :
  is_private_ip ip = Ok b -> appended_to p0 q0 st ->
  appended_to p0 q0 (set_collection b (collection_of b st ++ [document_of ip b]) st).
Proof.
  intros Hb (l1 & l2 & Hp & Hq & F1 & F2).
  assert (Hc : classified_as b (document_of ip b)) by (split; [exact Hb|reflexivity]).
  destruct b; simpl.
  - exists l1, (l2 ++ [document_of ip true]). rewrite Hq, <- app_assoc.
    repeat split; try assumption. apply Forall_app. auto.
  - exists (l1 ++ [document_of ip false]), l2. rewrite Hp, <- app_assoc.
    repeat split; try assumption. apply Forall_app. auto.
Qed.

(** X6: a run never removes or changes a document the store already holds:
    at the end each collection is the one the run found, followed by the
    documents it appended; every document appended to [private_ips] has an
    address [is_private_ip] accepts and the type "private", and every
    document appended to [public_ips] has an address it does not accept and
    the type "public". *)
Theorem run_appends_classified_documents (E : env) :
  appended_to (stored_public E) (stored_private E) (snd (run E)).
Proof.
  destruct (main E (IPProcessor_init E)) as [r st'] eqn:Hm.
  rewrite (run_snd E r st' Hm).
  eapply (inv_main E (appended_to (stored_public E) (stored_private E)));
    try eassumption;
    try (intros; match goal with H : appended_to _ _ _ |- _ => exact H end).
  - intros ip b st Hb HI _. now apply appended_to_append.
  - exists [], []. simpl. rewrite !app_nil_r. auto.
Qed.

(** ** The unique index along a run *)

Lemma unique_store_append ip b st :
  unique_store st -> records_for ip (collection_of b st) = [] ->
  unique_store (set_collection b (collection_of b st ++ [document_of ip b]) st).
Proof.
  intros [Hp Hq] Hr. destruct b; split; simpl; try assumption;
    apply unique_ips_snoc; assumption.
Qed.

(** X7: if neither collection holds two documents with the same address
    when the program starts, neither does when it ends, whatever the file
    holds and whichever calls fail. *)
Theorem run_keeps_unique_index (E : env) :
  unique_ips (stored_public E) -> unique_ips (stored_private E) ->
  unique_store (snd (run E)).
Proof.
  intros Hp Hq.
  destruct (main E (IPProcessor_init E)) as [r st'] eqn:Hm.
  rewrite (run_snd E r st' Hm).
  eapply (inv_main E unique_store); try eassumption;
    try (intros; match goal with H : unique_store _ |- _ => exact H end).
  - intros ip b st _ HI Hr. now apply unique_store_append.
  - split; assumption.
Qed.

Lemma run_keeps_unique_index_witness : unique_store (snd (run env_rescan)).
Proof.
  apply (run_keeps_unique_index env_rescan).
  - apply NoDup_nil_2.
  - unfold unique_ips. cbn. apply NoDup_singleton.
Defined.

(** ** Counters *)

Lemma stats_le_refl s : stats_le s s.
Proof. unfold stats_le. lia. Qed.

(** X8: [process_log_file] never decreases a counter of [self.stats],
    whether it returns [True], returns [False] or is interrupted. *)
Theorem process_log_file_counters_monotone
    (E : env) (st st' : state) (r : result bool) :
  process_log_file E st = (r, st') -> stats_le (stats st) (stats st').
Proof.
  intros H.
  eapply (inv_process_log_file E (fun s => stats_le (stats st) (stats s)));
    try exact H; try apply stats_le_refl;
    try (intros; match goal with HI : stats_le _ _ |- _ => exact HI end);
    intros; match goal with HI : stats_le _ _ |- _ => revert HI end;
    unfold stats_le; simpl; lia.
Qed.

Lemma process_log_file_counters_monotone_witness :
  stats_le init_stats
    (stats (snd (process_log_file env_store_error (IPProcessor_init env_store_error)))).
Proof.
  apply (process_log_file_counters_monotone env_store_error
           (IPProcessor_init env_store_error) _
           (fst (process_log_file env_store_error (IPProcessor_init env_store_error)))).
  apply surjective_pairing.
Defined.

(** ** Classification of the store calls *)

Lemma calls_classified_add ip b st :
  is_private_ip ip = Ok b -> calls_classified st ->
  calls_classified (add_update_call ip b st).
Proof.
  intros Hb HI ip' b' Hin. simpl in Hin.
  apply in_app_or in Hin as [Hin|[[= <- <-]|[]]]; [now apply HI|exact Hb].
Qed.

Lemma inv_calls_classified E : preserves calls_classified (main E).
Proof.
  apply inv_main;
    try (intros; match goal with H : calls_classified _ |- _ => exact H end).
  intros. now apply calls_classified_add.
Qed.

(** ** The account of a complete scan *)

Lemma first_occurrences_in a l : forall P,
  In a (first_occurrences P l) <-> In a l /\ a ∉ P.
Proof.
  induction l as [|x r IH]; intros P; simpl; [tauto|].
  destruct (bool_decide (x ∈ P)) eqn:Hx.
  - apply bool_decide_eq_true in Hx. rewrite IH. split.
    + intros [? ?]. auto.
    + intros [[<-|?] ?]; [contradiction|auto].
  - apply bool_decide_eq_false in Hx. simpl. rewrite IH. split.
    + intros [<-|[? Hn]]; [auto|]. split; [auto|].
      intros Ha. apply Hn, elem_of_union. now right.
    + intros [[<-|Hin] Hn]; [auto|].
      destruct (decide (x = a)) as [->|Hne]; [auto|]. right. split; [exact Hin|].
      intros Ha. apply elem_of_union in Ha as [Ha|Ha]; [|contradiction].
      apply elem_of_singleton in Ha. congruence.
Qed.

Lemma first_occurrences_NoDup l : forall P, NoDup (first_occurrences P l).
Proof.
  induction l as [|x r IH]; intros P; simpl; [apply NoDup_nil_2|].
  destruct (bool_decide (x ∈ P)); [apply IH|].
  apply NoDup_cons. split; [|apply IH].
  intros Hx. apply list_elem_of_In, first_occurrences_in in Hx as [_ Hn].
  apply Hn, elem_of_union. left. now apply elem_of_singleton.
Qed.

Lemma first_later_length l : forall P,
  length l = (length (first_occurrences P l) + length (later_occurrences P l))%nat.
Proof.
  induction l as [|x r IH]; intros P; simpl; [reflexivity|].
  pose proof (IH P). pose proof (IH ({[ x ]} ∪ P)).
  destruct (bool_decide (x ∈ P)); simpl; lia.
Qed.

Lemma process_line_counts_line E n line P st P' st' :
  process_line E n line P st = (Ok P', st') ->
  total_lines_processed (stats st') = total_lines_processed (stats st) + 1.
Proof.
  unfold process_line. rewrite extract_strip_extracted. monad_unfold.
  destruct (scan_ips E (extracted E line) P _) as [[P1|e] st1] eqn:Hs; [|discriminate].
  assert (H1 : total_lines_processed (stats st1)
               = total_lines_processed (stats st) + 1).
  { eapply (inv_scan_ips E
              (fun s => total_lines_processed (stats s)
                        = total_lines_processed (stats st) + 1));
      try exact Hs; try reflexivity;
      intros; match goal with HI : _ = _ + 1 |- _ => exact HI end. }
  destruct (n mod 1000 =? 0); intros [= <- <-]; exact H1.
Qed.

Lemma scan_lines_counts_lines E lines : forall n P st P' st',
  scan_lines E n lines P st = (Ok P', st') ->
  total_lines_processed (stats st')
  = total_lines_processed (stats st) + Z.of_nat (length lines).
Proof.
  induction lines as [|line r IH]; intros n P st P' st'; simpl.
  - intros [= <- <-]. lia.
  - unfold bind at 1.
    destruct (process_line E n line P st) as [[P1|e] st1] eqn:H1; [|discriminate].
    intros H2. apply process_line_counts_line in H1. apply IH in H2. lia.
Qed.

Lemma new_calls_classified E st r st' :
  process_log_file E st = (r, st') ->
  exists calls, update_calls st' = update_calls st ++ calls
                /\ forall a b, In (a, b) calls -> is_private_ip a = Ok b.
Proof.
  intros H.
  eapply (inv_process_log_file E
            (fun s => exists calls, update_calls s = update_calls st ++ calls
                        /\ forall a b, In (a, b) calls -> is_private_ip a = Ok b));
    try exact H;
    try (intros; match goal with HI : exists _, _ |- _ => exact HI end).
  - intros ip b s Hb (calls & Hc & Hall). exists (calls ++ [(ip, b)]).
    simpl. rewrite Hc, app_assoc. split; [reflexivity|].
    intros a b' Hin. apply in_app_or in Hin as [Hin|[[= <- <-]|[]]]; auto.
  - exists []. rewrite app_nil_r. split; [reflexivity|]. intros a b [].
Qed.

(** X9: after a call of [process_log_file] that returns [True],
    [total_lines_processed] has grown by the number of lines of the file and
    [total_ips_found] by the number of valid addresses in them; the
    [update_one] calls made are the distinct addresses of the file, each
    once, each with the classification [is_private_ip] gives it; and
    [within_file_duplicates] has grown by the number of addresses found
    minus the number of calls. *)
Theorem complete_scan_account (E : env) (st st' : state) :
  process_log_file E st = (Ok true, st') ->
  total_lines_processed (stats st')
  = total_lines_processed (stats st) + Z.of_nat (length (file_lines E))
  /\ total_ips_found (stats st')
     = total_ips_found (stats st) + Z.of_nat (length (scanned_ips E))
  /\ exists calls,
       update_calls st' = update_calls st ++ calls
       /\ NoDup (map fst calls)
       /\ (forall a, In a (map fst calls) <-> In a (scanned_ips E))
       /\ (forall a b, In (a, b) calls -> is_private_ip a = Ok b)
       /\ within_file_duplicates (stats st')
          = within_file_duplicates (stats st)
            + Z.of_nat (length (scanned_ips E)) - Z.of_nat (length calls).
Proof.
  intros H.
  destruct (new_calls_classified E st _ _ H) as (calls0 & Hc0 & Hflags).
  apply process_log_file_complete in H as (_ & _ & _ & P' & st1 & Hs & ->).
  pose proof (scan_lines_counts_lines _ _ _ _ _ _ _ Hs) as Hlines.
  apply scan_lines_effect in Hs as (_ & (calls & Hc & Hm) & _ & Ht & Hw & _).
  simpl in *. fold (scanned_ips E) in *.
  assert (calls0 = calls) by (rewrite Hc in Hc0; now apply app_inv_head in Hc0).
  subst calls0.
  split; [exact Hlines|]. split; [exact Ht|].
  exists calls. split; [exact Hc|]. rewrite Hm.
  split; [apply first_occurrences_NoDup|]. split.
  - intros a. rewrite first_occurrences_in. split; [tauto|].
    intros Hin. split; [exact Hin|apply not_elem_of_empty].
  - split; [exact Hflags|].
    rewrite Hw. rewrite (first_later_length (scanned_ips E) ∅).
    rewrite <- (length_map fst calls), Hm. lia.
Qed.

Lemma complete_scan_account_witness :
  total_lines_processed
    (stats (snd (process_log_file env_ok (IPProcessor_init env_ok)))) = 0 + Z.of_nat 2
  /\ total_ips_found
       (stats (snd (process_log_file env_ok (IPProcessor_init env_ok)))) = 0 + Z.of_nat 4.
Proof.
  destruct (complete_scan_account env_ok (IPProcessor_init env_ok)
              (snd (process_log_file env_ok (IPProcessor_init env_ok))))
    as (H1 & H2 & _).
  - vm_compute. reflexivity.
  - split; [exact H1|exact H2].
Defined.

(** ** Every address of the file ends up in the store *)

Lemma stored_append a ip b st :
  stored a st ->
  stored a (set_collection b (collection_of b st ++ [document_of ip b]) st).
Proof.
  intros (b' & Hb' & Hr). exists b'. split; [exact Hb'|].
  rewrite collection_of_set_collection.
  destruct (Bool.eqb b' b) eqn:Heq; [|exact Hr].
  apply Bool.eqb_prop in Heq. subst b'.
  rewrite records_for_app. intros Hnil.
  apply app_eq_nil in Hnil as [Hnil _]. contradiction.
Qed.

Lemma stored_monotone_process_ip E ip P st r st' a :
  process_ip E ip P st = (r, st') -> stored a st -> stored a st'.
Proof.
  intros H Hs.
  eapply (inv_process_ip E (fun s => stored a s)); try exact H; try exact Hs;
    try (intros; match goal with HI : stored _ _ |- _ => exact HI end).
  intros. now apply stored_append.
Qed.

Lemma process_ip_stores E ip P st P' st' :
  update_one_fault E (length (update_calls st)) = None ->
  ip ∉ P -> process_ip E ip P st = (Ok P', st') -> stored ip st'.
Proof.
  intros Hf Hnew. unfold process_ip. monad_unfold.
  rewrite bool_decide_eq_false_2 by assumption.
  destruct (is_private_ip_returns ip) as [b Hb]. rewrite Hb.
  destruct (store_ip_in_mongodb_cases E ip b
              (set_stats (incr_total_ips_found (stats st)) st))
    as [(c & Hf' & _)|[(Hf' & _)|[(_ & Hr & Heq)|(_ & Hr & Heq)]]];
    try (simpl in Hf'; congruence);
    rewrite Heq; destruct b; intros [= <- <-];
    (eexists; split; [exact Hb|]); simpl in *;
    try exact Hr;
    rewrite records_for_app; cbn; rewrite bool_decide_eq_true_2 by reflexivity;
    intros Hnil; apply app_eq_nil in Hnil as [_ Hnil]; discriminate.
Qed.

Lemma process_ip_all_stored E ip P st P' st' :
  store_answers E -> all_stored P st ->
  process_ip E ip P st = (Ok P', st') -> all_stored P' st'.
Proof.
  intros Hans Hinv H.
  pose proof (process_ip_effect _ _ _ _ _ _ H) as (HP & _).
  unfold mark_seen in HP. simpl in HP. subst P'.
  intros a Ha. apply elem_of_union in Ha as [Ha|Ha].
  - apply elem_of_singleton in Ha. subst a.
    destruct (decide (ip ∈ P)) as [Hin|Hnew].
    + eapply stored_monotone_process_ip; [exact H|now apply Hinv].
    + eapply process_ip_stores; [apply Hans|exact Hnew|exact H].
  - eapply stored_monotone_process_ip; [exact H|now apply Hinv].
Qed.

Lemma scan_ips_all_stored E l : forall P st P' st',
  store_answers E -> all_stored P st ->
  scan_ips E l P st = (Ok P', st') -> all_stored P' st'.
Proof.
  induction l as [|ip r IH]; intros P st P' st' Hans Hinv; simpl.
  - intros [= <- <-]. exact Hinv.
  - unfold bind at 1.
    destruct (process_ip E ip P st) as [[P1|e] st1] eqn:H1; [|discriminate].
    apply IH; [exact Hans|]. eapply process_ip_all_stored; eassumption.
Qed.

Lemma process_line_all_stored E n line P st P' st' :
  store_answers E -> all_stored P st ->
  process_line E n line P st = (Ok P', st') -> all_stored P' st'.
Proof.
  intros Hans Hinv. unfold process_line. rewrite extract_strip_extracted. monad_unfold.
  destruct (scan_ips E (extracted E line) P _) as [[P1|e] st1] eqn:Hs; [|discriminate].
  apply scan_ips_all_stored in Hs; [|exact Hans|exact Hinv].
  destruct (n mod 1000 =? 0); intros [= <- <-]; exact Hs.
Qed.

Lemma scan_lines_all_stored E lines : forall n P st P' st',
  store_answers E -> all_stored P st ->
  scan_lines E n lines P st = (Ok P', st') -> all_stored P' st'.
Proof.
  induction lines as [|line r IH]; intros n P st P' st' Hans Hinv; simpl.
  - intros [= <- <-]. exact Hinv.
  - unfold bind at 1.
    destruct (process_line E n line P st) as [[P1|e] st1] eqn:H1; [|discriminate].
    apply IH; [exact Hans|]. eapply process_line_all_stored; eassumption.
Qed.

Lemma elem_of_mark_seen (a : str) (l : list str) :
  forall P : gset (list N), In a l -> a ∈ mark_seen P l.
Proof.
  unfold mark_seen.
  assert (Hkeep : forall (l : list str) (P : gset (list N)),
             a ∈ P -> a ∈ fold_left (fun P x => {[ x ]} ∪ P) l P).
  { clear. induction l as [|x r IH]; intros P Ha; simpl; [exact Ha|].
    apply IH, elem_of_union. now right. }
  induction l as [|x r IH]; intros P; simpl; [intros []|].
  intros [->|Hin]; [|now apply IH].
  apply Hkeep, elem_of_union. left. now apply elem_of_singleton.
Qed.

(** X10: when the store answers every call, after a call of
    [process_log_file] that returns [True] every valid address found in the
    file has a document in the collection of its classification:
    [private_ips] if [is_private_ip] accepts it, [public_ips] otherwise. *)
Theorem complete_scan_stores_every_address (E : env) (st st' : state) :
  store_answers E ->
  process_log_file E st = (Ok true, st') ->
  forall a, In a (scanned_ips E) -> stored a st'.
Proof.
  intros Hans H a Hin.
  apply process_log_file_complete in H as (_ & _ & _ & P' & st1 & Hs & ->).
  pose proof (scan_lines_effect _ _ _ _ _ _ _ Hs) as (HP & _).
  apply scan_lines_all_stored in Hs; [|exact Hans|intros x Hx; now apply not_elem_of_empty in Hx].
  assert (Hst : stored a st1).
  { apply Hs. rewrite HP. now apply elem_of_mark_seen. }
  exact Hst.
Qed.

Lemma complete_scan_stores_every_address_witness :
  stored (py "8.8.8.8") (snd (process_log_file env_ok (IPProcessor_init env_ok))).
Proof.
  apply (complete_scan_stores_every_address env_ok (IPProcessor_init env_ok)).
  - intros n. reflexivity.
  - vm_compute. reflexivity.
  - vm_compute. right. left. reflexivity.
Defined.

(** ** Connecting *)

(** X11: [connect_to_mongodb] returns [True] exactly when the client is
    built and the server answers; when either step raises an exception it
    logs one error and returns [False]; only [KeyboardInterrupt] leaves it.
    Once the client is built [self.client] is set, also when the ping
    fails. Counters and collections are not touched. *)
Theorem connect_to_mongodb_result (E : env) (st st' : state) (r : result bool) :
  connect_to_mongodb E st = (r, st') ->
  (r = Ok true <-> store_reachable E)
  /\ (r = Ok false <-> store_unreachable E)
  /\ (r = Ok true \/ r = Ok false \/ r = Raise KeyboardInterrupt)
  /\ (r = Ok false ->
      exists m, log st' = log st ++ [(INFO, ConnectingToMongoDB); (ERROR, m)])
  /\ (mongo_client_fault E = None -> client st' = true)
  /\ stats st' = stats st
  /\ public_ips_collection st' = public_ips_collection st
  /\ private_ips_collection st' = private_ips_collection st.
Proof.
  unfold connect_to_mongodb, store_reachable, store_unreachable. monad_unfold.
  destruct (mongo_client_fault E) as [[c1|]|] eqn:H1;
    [destruct c1|idtac|destruct (ping_fault E) as [[c2|]|] eqn:H2; [destruct c2|idtac|idtac]];
    cbn; intros [= <- <-]; cbn;
    repeat split; intros; try discriminate; try congruence; auto;
    try (eexists; rewrite <- app_assoc; reflexivity);
    try match goal with
        | H : _ /\ _ |- _ => destruct H; discriminate
        | H : exists _, _ |- _ =>
            destruct H as [? [?|[? ?]]]; discriminate
        | |- exists c, Some (FaultExc ?x) = Some (FaultExc c) \/ _ => exists x; auto
        | |- exists c, _ \/ (_ /\ Some (FaultExc ?x) = Some (FaultExc c)) =>
            exists x; auto
        end.
Qed.

Lemma connect_to_mongodb_result_witness :
  fst (connect_to_mongodb env_unreachable (IPProcessor_init env_unreachable)) = Ok false.
Proof.
  destruct (connect_to_mongodb_result env_unreachable
              (IPProcessor_init env_unreachable)
              (snd (connect_to_mongodb env_unreachable (IPProcessor_init env_unreachable)))
              (fst (connect_to_mongodb env_unreachable (IPProcessor_init env_unreachable))))
    as (_ & H & _).
  - apply surjective_pairing.
  - apply (proj2 H). exists ConnectionFailure. right. split; reflexivity.
Defined.

(** ** How [process_log_file] ends *)

Lemma process_log_file_open_interrupted (E : env) st :
  path_exists E = true -> open_fault E = Some FaultInterrupt ->
  process_log_file E st = (Raise KeyboardInterrupt, add_log INFO StartProcessing st).
Proof.
  intros H1 H2. unfold process_log_file. rewrite H1. monad_unfold.
  rewrite H2. reflexivity.
Qed.

(** X12: [process_log_file] returns a boolean unless a [KeyboardInterrupt]
    arrives: no other exception leaves it. It returns [True] only when the
    file exists, opens and is read to its end. When the file is missing or
    cannot be opened it returns [False] after logging one error, and no
    counter has changed and no store call has been made. *)
Theorem process_log_file_result (E : env) (st st' : state) (r : result bool) :
  process_log_file E st = (r, st') ->
  (r = Ok true \/ r = Ok false \/ r = Raise KeyboardInterrupt)
  /\ (r = Ok true -> file_opens E /\ read_fault E = None)
  /\ (file_cannot_be_opened E ->
      r = Ok false /\ stats st' = stats st /\ update_calls st' = update_calls st
      /\ public_ips_collection st' = public_ips_collection st
      /\ private_ips_collection st' = private_ips_collection st
      /\ exists m, last (log st') = Some (ERROR, m)).
Proof.
  destruct (path_exists E) eqn:Hpath.
  - destruct (open_fault E) as [[c|]|] eqn:Hopen.
    + rewrite (process_log_file_unopenable E st c Hpath Hopen). intros [= <- <-].
      split; [auto|]. split; [discriminate|]. intros _.
      repeat split. eexists. apply last_snoc.
    + rewrite (process_log_file_open_interrupted E st Hpath Hopen). intros [= <- <-].
      split; [auto|]. split; [discriminate|].
      intros [Hc|[c Hc]]; congruence.
    + assert (Hf : file_opens E) by (split; assumption).
      destruct (scan_lines E 1 (file_lines E) ∅ (add_log INFO StartProcessing st))
        as [[P'|e] st1] eqn:Hs.
      * rewrite (process_log_file_scanned E st P' st1 Hf Hs).
        destruct (read_fault E) as [[c|]|] eqn:Hread; intros [= <- <-];
          (split; [auto|]); (split; [try discriminate; auto|]);
          intros [Hc|[c' Hc]]; congruence.
      * rewrite (process_log_file_interrupted E st e st1 Hf Hs). intros [= <- <-].
        split; [auto|]. split; [discriminate|].
        intros [Hc|[c' Hc]]; congruence.
  - rewrite (process_log_file_missing E st Hpath). intros [= <- <-].
    split; [auto|]. split; [discriminate|]. intros _.
    repeat split. eexists. apply last_snoc.
Qed.

Lemma process_log_file_result_witness :
  fst (process_log_file env_no_file (IPProcessor_init env_no_file)) = Ok false
  /\ stats (snd (process_log_file env_no_file (IPProcessor_init env_no_file)))
     = init_stats.
Proof.
  destruct (process_log_file_result env_no_file (IPProcessor_init env_no_file)
              (snd (process_log_file env_no_file (IPProcessor_init env_no_file)))
              (fst (process_log_file env_no_file (IPProcessor_init env_no_file))))
    as (_ & _ & H).
  - apply surjective_pairing.
  - destruct H as (H1 & H2 & _); [left; reflexivity|]. split; [exact H1|exact H2].
Defined.

(** ** An interrupt during the scan *)

Lemma main_scan_interrupted_log (E : env) st st1 st2 :
  connect_to_mongodb E st = (Ok true, st1) ->
  process_log_file E st1 = (Raise KeyboardInterrupt, st2) ->
  exists st',
    main E st = (Ok tt, st')
    /\ log st' = log st2 ++ (INFO, InterruptedByUser)
                  :: (if client st2 then [(INFO, ConnectionClosed)] else []).
Proof.
  intros H1 H2. unfold main. monad_unfold. main_step H1. main_step H2.
  destruct (close_connection_returns E (add_log INFO InterruptedByUser st2))
    as (st' & Hc & Hl).
  main_step Hc. exists st'. split; [reflexivity|].
  rewrite Hl. simpl. now rewrite <- app_assoc.
Qed.

(** X15: when a [KeyboardInterrupt] arrives while the file is being read,
    [process_log_file] does not catch it; [main] logs "Processing
    interrupted by user" and the program ends with exit status 0, without
    reporting statistics and without the "completed successfully" record. *)
Theorem interrupt_exits_zero (E : env) :
  store_reachable E -> file_opens E -> no_interrupt_in_store E ->
  read_fault E = Some FaultInterrupt ->
  fst (run E) = 0
  /\ In (INFO, InterruptedByUser) (log (snd (run E)))
  /\ (forall l m, In (l, m) (log (snd (run E))) ->
      is_statistics m = false /\ m <> CompletedSuccessfully
      /\ m <> ProcessingCompleted).
Proof.
  intros Hr Hf Hno Hread.
  pose proof (connect_to_mongodb_reachable E (IPProcessor_init E) Hr) as Hc.
  match type of Hc with _ = (_, ?s) => set (st1 := s) in * end.
  destruct (scan_lines_returns E (file_lines E) 1 ∅
              (add_log INFO StartProcessing st1) Hno) as (P' & st2 & Hs).
  pose (ok := fun m => negb (is_statistics m)
                       && match m with
                          | CompletedSuccessfully | ProcessingCompleted => false
                          | _ => true
                          end).
  assert (Hinv : log_inv ok st2).
  { eapply (preserves_scan_lines ok E); [reflexivity|reflexivity| |exact Hs].
    subst st1. repeat apply log_inv_add_log; try reflexivity.
    apply log_inv_init. }
  pose proof (process_log_file_scanned E st1 P' st2 Hf Hs) as Hp.
  rewrite Hread in Hp.
  destruct (main_scan_interrupted_log E _ _ _ Hc Hp) as (st' & Hm & Hlog).
  rewrite (run_fst E _ _ Hm), (run_snd E _ _ Hm), Hlog.
  split; [reflexivity|]. split.
  - apply in_or_app. right. left. reflexivity.
  - intros l m Hin.
    assert (Hok : ok m = true).
    { apply in_app_or in Hin as [Hin|[[= <- <-]|Hin]].
      - destruct Hinv as [_ Hl]. eapply Hl. exact Hin.
      - reflexivity.
      - destruct (client st2); [|destruct Hin].
        destruct Hin as [[= <- <-]|[]]. reflexivity. }
    unfold ok in Hok. apply andb_prop in Hok as [H1 H2].
    apply negb_true_iff in H1. split; [exact H1|].
    split; intros ->; discriminate.
Qed.

Lemma interrupt_exits_zero_witness :
  fst (run env_interrupted) = 0
  /\ In (INFO, InterruptedByUser) (log (snd (run env_interrupted))).
Proof.
  destruct (interrupt_exits_zero env_interrupted) as (H1 & H2 & _).
  - split; reflexivity.
  - split; reflexivity.
  - intros n. discriminate.
  - reflexivity.
  - split; [exact H1|exact H2].
Defined.

(** ** The report *)

(** X16: [print_statistics] only writes to the log: counters, collections
    and the record of store calls are as before, and no exception other
    than [KeyboardInterrupt] leaves it. It always logs the six counters;
    when [count_documents] answers it also logs the sizes of the two
    collections and the two "Math check" numbers, which are equal whenever
    the counters satisfy the cross-check; when [count_documents] raises an
    exception it logs that error instead and returns normally. *)
Theorem print_statistics_report (E : env) (st st' : state) (r : result unit) :
  print_statistics E st = (r, st') ->
  stats st' = stats st
  /\ public_ips_collection st' = public_ips_collection st
  /\ private_ips_collection st' = private_ips_collection st
  /\ update_calls st' = update_calls st
  /\ (r = Ok tt \/ r = Raise KeyboardInterrupt)
  /\ exists records,
       log st' = log st ++ records
       /\ In (INFO, TotalLinesProcessed (total_lines_processed (stats st))) records
       /\ In (INFO, TotalIPsFound (total_ips_found (stats st))) records
       /\ In (INFO, WithinFileDuplicates (within_file_duplicates (stats st))) records
       /\ In (INFO, NewPublicStored (unique_public_ips_stored (stats st))) records
       /\ In (INFO, NewPrivateStored (unique_private_ips_stored (stats st))) records
       /\ In (INFO, DatabaseDuplicatesSkipped (duplicate_ips_skipped (stats st))) records
       /\ (count_documents_fault E = None ->
           r = Ok tt
           /\ In (INFO, TotalPublicInDatabase
                          (Z.of_nat (length (public_ips_collection st)))) records
           /\ In (INFO, TotalPrivateInDatabase
                          (Z.of_nat (length (private_ips_collection st)))) records
           /\ In (INFO, MathCheckUnique
                          (unique_public_ips_stored (stats st)
                           + unique_private_ips_stored (stats st)
                           + duplicate_ips_skipped (stats st))) records
           /\ In (INFO, MathCheckShouldEqual
                          (total_ips_found (stats st)
                           - within_file_duplicates (stats st))) records)
       /\ (forall c, count_documents_fault E = Some (FaultExc c) ->
           r = Ok tt /\ In (ERROR, ErrorGettingCounts (Exc c)) records)
       /\ (cross_check (stats st) ->
           forall n m, In (INFO, MathCheckUnique n) records ->
                       In (INFO, MathCheckShouldEqual m) records -> n = m).
Proof.
  unfold print_statistics, count_documents. monad_unfold.
  destruct (count_documents_fault E) as [[c|]|] eqn:Hf; cbn; intros [= <- <-]; cbn;
    (split; [reflexivity|]); (split; [reflexivity|]); (split; [reflexivity|]);
    (split; [reflexivity|]); (split; [auto|]);
    rewrite <- !app_assoc; cbn; eexists; (split; [reflexivity|]);
    repeat match goal with
           | |- In _ _ /\ _ => split; [cbn; tauto|]
           end.
  - split; [discriminate|]. split.
    + intros c' [= <-]. split; [reflexivity|]. cbn. tauto.
    + intros _ n m Hn. cbn in Hn.
      repeat (destruct Hn as [Hn|Hn]; [discriminate|]). destruct Hn.
  - split; [discriminate|]. split; [discriminate|].
    intros _ n m Hn. cbn in Hn.
    repeat (destruct Hn as [Hn|Hn]; [discriminate|]). destruct Hn.
  - split; [intros _; split; [reflexivity|]; cbn; tauto|].
    split; [discriminate|].
    intros Hcc n m Hn Hm. cbn in Hn, Hm. unfold cross_check in Hcc.
    repeat (destruct Hn as [Hn|Hn]; [try discriminate|]); [|destruct Hn].
    repeat (destruct Hm as [Hm|Hm]; [try discriminate|]); [|destruct Hm].
    injection Hn as <-. injection Hm as <-. exact Hcc.
Qed.

Lemma print_statistics_report_witness :
  fst (print_statistics env_count_error (IPProcessor_init env_count_error)) = Ok tt
  /\ stats (snd (print_statistics env_count_error (IPProcessor_init env_count_error)))
     = init_stats.
Proof.
  destruct (print_statistics_report env_count_error (IPProcessor_init env_count_error)
              (snd (print_statistics env_count_error (IPProcessor_init env_count_error)))
              (fst (print_statistics env_count_error (IPProcessor_init env_count_error))))
    as (H1 & _ & _ & _ & _ & records & _ & _ & _ & _ & _ & _ & _ & _ & H2 & _).
  - apply surjective_pairing.
  - split; [exact (proj1 (H2 PyMongoError eq_refl))|exact H1].
Defined.

(** ** The "stored" counters count the documents added *)

Lemma unbooked_process_ip E ip P v :
  preserves (fun s => unbooked s = v) (process_ip E ip P).
Proof.
  intros st r st' HI. unfold process_ip. monad_unfold.
  destruct (bool_decide (ip ∈ P)); [intros [= _ <-]; exact HI|].
  destruct (is_private_ip_returns ip) as [b Hb]. rewrite Hb.
  destruct (store_ip_in_mongodb_cases E ip b
              (set_stats (incr_total_ips_found (stats st)) st))
    as [(c & _ & Heq)|[(_ & Heq)|[(_ & _ & Heq)|(_ & _ & Heq)]]];
    rewrite Heq; destruct b; intros [= _ <-]; rewrite <- HI;
    unfold unbooked; simpl; rewrite ?length_app; simpl;
    f_equal; lia.
Qed.

Section Unbooked.

Variable E : env.
Variable v : Z * Z.

Lemma unbooked_scan_ips l : forall P,
  preserves (fun s => unbooked s = v) (scan_ips E l P).
Proof.
  induction l as [|ip r IH]; intros P; simpl;
    repeat frame_step; auto using unbooked_process_ip.
Qed.

Lemma unbooked_process_line n line P :
  preserves (fun s => unbooked s = v) (process_line E n line P).
Proof.
  unfold process_line. repeat frame_step; auto using unbooked_scan_ips.
Qed.

Lemma unbooked_scan_lines lines : forall n P,
  preserves (fun s => unbooked s = v) (scan_lines E n lines P).
Proof.
  induction lines as [|line r IH]; intros n P; simpl;
    repeat frame_step; auto using unbooked_process_line.
Qed.

Lemma unbooked_process_log_file :
  preserves (fun s => unbooked s = v) (process_log_file E).
Proof.
  unfold process_log_file. repeat frame_step; auto using unbooked_scan_lines.
Qed.

End Unbooked.

(** X17: when the store answers every call, a call of [process_log_file]
    that returns [True] has added to each collection exactly as many
    documents as its "stored" counter has grown by:
    [unique_public_ips_stored] for [public_ips] and
    [unique_private_ips_stored] for [private_ips]. *)
Theorem stored_counters_count_new_documents (E : env) (st st' : state) :
  store_answers E ->
  process_log_file E st = (Ok true, st') ->
  Z.of_nat (length (public_ips_collection st'))
  - Z.of_nat (length (public_ips_collection st))
  = unique_public_ips_stored (stats st') - unique_public_ips_stored (stats st)
  /\ Z.of_nat (length (private_ips_collection st'))
     - Z.of_nat (length (private_ips_collection st))
     = unique_private_ips_stored (stats st') - unique_private_ips_stored (stats st).
Proof.
  intros _ H.
  pose proof (unbooked_process_log_file E (unbooked st) _ _ _ eq_refl H) as Hu.
  unfold unbooked in Hu. injection Hu as H1 H2. lia.
Qed.

Lemma stored_counters_count_new_documents_witness :
  Z.of_nat (length (public_ips_collection
                      (snd (process_log_file env_rescan (IPProcessor_init env_rescan)))))
  - Z.of_nat 0
  = unique_public_ips_stored
      (stats (snd (process_log_file env_rescan (IPProcessor_init env_rescan)))) - 0.
Proof.
  apply (stored_counters_count_new_documents env_rescan (IPProcessor_init env_rescan)).
  - intros n. reflexivity.
  - vm_compute. reflexivity.
Defined.

(** ** Scanning a file whose addresses are all stored *)

Lemma rescan_process_ip E ip P st0 :
  store_answers E -> stored ip st0 ->
  preserves (nothing_stored_since st0) (process_ip E ip P).
Proof.
  intros Hans (b0 & Hb0 & Hrec) st r st' (Hp & Hq & Hcp & Hcq).
  unfold process_ip. monad_unfold.
  destruct (bool_decide (ip ∈ P));
    [intros [= _ <-]; repeat split; assumption|].
  rewrite Hb0.
  assert (Hrec' : records_for ip
                    (collection_of b0 (set_stats (incr_total_ips_found (stats st)) st))
                  <> []).
  { destruct b0; simpl in *; congruence. }
  destruct (store_ip_in_mongodb_cases E ip b0
              (set_stats (incr_total_ips_found (stats st)) st))
    as [(c & Hf & _)|[(Hf & _)|[(_ & Hr & _)|(_ & _ & Heq)]]];
    try (rewrite Hans in Hf; discriminate); try contradiction.
  rewrite Heq. destruct b0; intros [= _ <-]; repeat split; assumption.
Qed.

Lemma rescan_scan_ips E st0 l : forall P,
  store_answers E -> (forall a, In a l -> stored a st0) ->
  preserves (nothing_stored_since st0) (scan_ips E l P).
Proof.
  induction l as [|ip r IH]; intros P Hans Hall; simpl; repeat frame_step.
  - apply rescan_process_ip; [exact Hans|]. apply Hall. now left.
  - apply IH; [exact Hans|]. intros x Hx. apply Hall. now right.
Qed.

Lemma rescan_process_line E st0 n line P :
  store_answers E -> (forall a, In a (extracted E line) -> stored a st0) ->
  preserves (nothing_stored_since st0) (process_line E n line P).
Proof.
  intros Hans Hall. unfold process_line. rewrite extract_strip_extracted.
  repeat frame_step; try assumption.
  match goal with H : Ok _ = Ok _ |- _ => injection H as <- end.
  now apply rescan_scan_ips.
Qed.

Lemma rescan_scan_lines E st0 lines : forall n P,
  store_answers E ->
  (forall a, In a (concat (map (extracted E) lines)) -> stored a st0) ->
  preserves (nothing_stored_since st0) (scan_lines E n lines P).
Proof.
  induction lines as [|line r IH]; intros n P Hans Hall; simpl; repeat frame_step.
  - apply rescan_process_line; [exact Hans|].
    intros x Hx. apply Hall. simpl. apply in_or_app. now left.
  - apply IH; [exact Hans|]. intros x Hx. apply Hall. simpl. apply in_or_app. now right.
Qed.

(** X18: when the store answers every call and every valid address of the
    file already has a document in the collection of its classification,
    [process_log_file] adds nothing: both collections and both "stored"
    counters are as before, however the call ends. *)
Theorem rescan_adds_nothing (E : env) (st st' : state) (r : result bool) :
  store_answers E ->
  (forall a, In a (scanned_ips E) -> stored a st) ->
  process_log_file E st = (r, st') ->
  nothing_stored_since st st'.
Proof.
  intros Hans Hall H.
  assert (Hp : preserves (nothing_stored_since st) (process_log_file E)).
  { unfold process_log_file. repeat frame_step; try assumption.
    now apply rescan_scan_lines. }
  eapply Hp; [|exact H]. repeat split.
Qed.

Lemma rescan_adds_nothing_witness :
  nothing_stored_since
    (snd (process_log_file env_ok (IPProcessor_init env_ok)))
    (snd (process_log_file env_ok
            (snd (process_log_file env_ok (IPProcessor_init env_ok))))).
Proof.
  apply (rescan_adds_nothing env_ok _ _
           (fst (process_log_file env_ok
                   (snd (process_log_file env_ok (IPProcessor_init env_ok)))))).
  - intros n. reflexivity.
  - intros a Ha. vm_compute in Ha.
    destruct Ha as [<-|[<-|[<-|[<-|[]]]]];
      first [ exists true; split; [vm_compute; reflexivity|vm_compute; discriminate]
            | exists false; split; [vm_compute; reflexivity|vm_compute; discriminate] ].
  - apply surjective_pairing.
Defined.

(** ** Extraction and the counters *)

Lemma later_occurrences_in a l : forall P, In a (later_occurrences P l) -> In a l.
Proof.
  induction l as [|x r IH]; intros P; simpl; [auto|].
  destruct (bool_decide (x ∈ P)); simpl.
  - intros [<-|H]; [auto|]. right. eapply IH. exact H.
  - intros H. right. eapply IH. exact H.
Qed.

Lemma extracted_of_stripped E raw ips :
  extract_ips_from_line E (strip E raw) = Ok ips -> extracted E raw = ips.
Proof. intros H. unfold extracted. now rewrite H. Qed.

(** C4: on every line, extraction returns a list; each address in it is one
    of the candidates the pattern found and is four dot-separated decimal
    integers, each in [0,255]; a candidate with a group above 255 is not in
    the list. The scan counts and stores nothing else: when a line of the
    file is processed, [total_ips_found] grows by the length of that list,
    every [update_one] call and every skipped occurrence is for an address
    of the list, one of the two per occurrence, and the other counters grow
    by the number of calls and of skips; and a line is processed in the
    same way, with the same final state, as any other line that yields the
    same list, whatever rejected candidates either holds. *)
Theorem extract_ips_from_line_valid (E : env) (line : str) :
  exists ips,
    extract_ips_from_line E line = Ok ips
    /\ (forall a, In a ips -> In a (findall E line) /\ dotted_quad a)
    /\ (forall c, In c (findall E line) -> octet_above_255 c -> ~ In c ips)
    /\ (forall n raw P st P' st',
          strip E raw = line ->
          process_line E n raw P st = (Ok P', st') ->
          total_lines_processed (stats st') = total_lines_processed (stats st) + 1
          /\ total_ips_found (stats st')
             = total_ips_found (stats st) + Z.of_nat (length ips)
          /\ exists calls skips,
               update_calls st' = update_calls st ++ calls
               /\ skipped st' = skipped st ++ skips
               /\ (forall a, In a (map fst calls) \/ In a skips -> In a ips)
               /\ (forall c, In c (findall E line) -> octet_above_255 c ->
                   ~ In c (map fst calls) /\ ~ In c skips)
               /\ length ips = (length calls + length skips)%nat
               /\ within_file_duplicates (stats st')
                  = within_file_duplicates (stats st) + Z.of_nat (length skips)
               /\ unique_public_ips_stored (stats st')
                  + unique_private_ips_stored (stats st')
                  + duplicate_ips_skipped (stats st')
                  = unique_public_ips_stored (stats st)
                    + unique_private_ips_stored (stats st)
                    + duplicate_ips_skipped (stats st) + Z.of_nat (length calls))
    /\ (forall n raw raw' P st,
          strip E raw = line ->
          extract_ips_from_line E (strip E raw') = Ok ips ->
          process_line E n raw P st = process_line E n raw' P st).
Proof.
  exists (List.filter parses (findall E line)).
  assert (Hrej : forall c, In c (findall E line) -> octet_above_255 c ->
                 ~ In c (List.filter parses (findall E line))).
  { intros c _ Hbig Hin. apply filter_In in Hin as [_ Hp].
    apply octet_above_255_rejected in Hbig. congruence. }
  split; [apply extract_ips_from_line_eq|]. split; [|split; [exact Hrej|split]].
  - intros a Ha. apply filter_In in Ha as [Hin Hp].
    split; [assumption|now apply parses_dotted_quad].
  - intros n raw P st P' st' Hraw H.
    pose proof (process_line_counts_line _ _ _ _ _ _ _ H) as Hlines.
    apply process_line_effect in H.
    rewrite (extracted_of_stripped E raw (List.filter parses (findall E line))) in H
      by (rewrite Hraw; apply extract_ips_from_line_eq).
    destruct H as (_ & (calls & Hc & Hm) & Hs & Ht & Hw & Hb).
    split; [exact Hlines|]. split; [exact Ht|].
    exists calls, (later_occurrences P (List.filter parses (findall E line))).
    assert (Hin : forall a,
               In a (map fst calls)
               \/ In a (later_occurrences P (List.filter parses (findall E line))) ->
               In a (List.filter parses (findall E line))).
    { intros a [Ha|Ha].
      - rewrite Hm in Ha. now apply first_occurrences_in in Ha as [Ha _].
      - eapply later_occurrences_in. exact Ha. }
    split; [exact Hc|]. split; [exact Hs|]. split; [exact Hin|]. split.
    { intros c Hcand Hbig. split; intros Ha; apply (Hrej c Hcand Hbig); apply Hin; auto. }
    split.
    { rewrite (first_later_length _ P), <- Hm, length_map. reflexivity. }
    split; [exact Hw|].
    rewrite Hb, <- Hm, length_map. reflexivity.
  - intros n raw raw' P st Hraw Hsame. unfold process_line.
    rewrite Hsame, Hraw, extract_ips_from_line_eq. reflexivity.
Qed.

Lemma extract_ips_from_line_valid_witness :
  extract_ips_from_line env_ok (py "GET /index.html 8.8.8.8 999.1.1.1")
  = Ok [py "8.8.8.8"]
  /\ In (py "999.1.1.1") (findall env_ok (py "GET /index.html 8.8.8.8 999.1.1.1"))
  /\ dotted_quad (py "8.8.8.8")
  /\ ~ In (py "999.1.1.1") [py "8.8.8.8"]
  /\ total_ips_found
       (stats (snd (process_line env_ok 1 (py "GET /index.html 8.8.8.8 999.1.1.1") ∅
                      (IPProcessor_init env_ok))))
     = 0 + Z.of_nat 1.
Proof.
  destruct (extract_ips_from_line_valid env_ok (py "GET /index.html 8.8.8.8 999.1.1.1"))
    as (ips & Heq & Hquad & Hrej & Hscan & _).
  assert (Hips : ips = [py "8.8.8.8"]).
  { vm_compute in Heq. injection Heq as <-. reflexivity. }
  subst ips.
  assert (Hc : In (py "999.1.1.1") (findall env_ok (py "GET /index.html 8.8.8.8 999.1.1.1"))).
  { vm_compute. right. left. reflexivity. }
  split; [reflexivity|]. split; [exact Hc|]. split; [|split].
  - apply (Hquad (py "8.8.8.8")). left. reflexivity.
  - apply (Hrej (py "999.1.1.1") Hc).
    exists (py "999"). split; [vm_compute; left; reflexivity|].
    split; [reflexivity|vm_compute; reflexivity].
  - destruct (process_line env_ok 1 (py "GET /index.html 8.8.8.8 999.1.1.1") ∅
                (IPProcessor_init env_ok)) as [[P'|e] st'] eqn:Hp;
      [|vm_compute in Hp; discriminate].
    refine (proj1 (proj2 (Hscan 1 (py "GET /index.html 8.8.8.8 999.1.1.1") ∅
                            (IPProcessor_init env_ok) P' st' _ Hp))).
    vm_compute. reflexivity.
Defined.

(** ** Storing the same address twice *)

(** C7, for two calls that the store answers and a collection that holds
    at most one document for the address, as its unique index ensures:
    after two calls of [store_ip_in_mongodb] with the same address and
    classification the collection holds exactly one document for the
    address; the second call returns [False] and changes nothing; the first
    returns [True] exactly when the collection held no document for the
    address, and [False] when it already held one. The other collection is
    untouched. *)
Theorem store_twice (E : env) (ip : str) (is_private : bool) (st : state) :
  update_one_fault E (length (update_calls st)) = None ->
  update_one_fault E (S (length (update_calls st))) = None ->
  (length (records_for ip (collection_of is_private st)) <= 1)%nat ->
  exists r1 st1 st2,
    store_ip_in_mongodb E ip is_private st = (Ok r1, st1)
    /\ store_ip_in_mongodb E ip is_private st1 = (Ok false, st2)
    /\ (r1 = true <-> records_for ip (collection_of is_private st) = [])
    /\ length (records_for ip (collection_of is_private st2)) = 1%nat
    /\ collection_of is_private st2 = collection_of is_private st1
    /\ collection_of (negb is_private) st2 = collection_of (negb is_private) st.
Proof.
  intros Hf1 Hf2 Hone.
  assert (Hfirst : exists r1 st1,
             store_ip_in_mongodb E ip is_private st = (Ok r1, st1)
             /\ (r1 = true <-> records_for ip (collection_of is_private st) = [])
             /\ length (update_calls st1) = S (length (update_calls st))
             /\ length (records_for ip (collection_of is_private st1)) = 1%nat
             /\ collection_of (negb is_private) st1
                = collection_of (negb is_private) st).
  { destruct (store_ip_in_mongodb_cases E ip is_private st)
      as [(c & Hf & _)|[(Hf & _)|[(_ & Hr & Heq)|(_ & Hr & Heq)]]];
      try congruence.
    - eexists. eexists. split; [exact Heq|]. split; [tauto|]. split.
      + cbn. rewrite length_app. cbn. lia.
      + rewrite collection_of_set_collection, Bool.eqb_reflx.
        rewrite records_for_app, Hr. cbn.
        rewrite bool_decide_eq_true_2 by reflexivity.
        split; [reflexivity|]. destruct is_private; reflexivity.
    - eexists. eexists. split; [exact Heq|]. split.
      + split; [discriminate|]. intros Hnil. contradiction.
      + split; [cbn; rewrite length_app; cbn; lia|].
        rewrite collection_of_set_collection, Bool.eqb_reflx.
        split; [|destruct is_private; reflexivity].
        destruct (records_for ip (collection_of is_private st)) as [|d [|d' t]];
          [contradiction|reflexivity|simpl in Hone; lia]. }
  destruct Hfirst as (r1 & st1 & H1 & Hr1 & Hlen & Hrec1 & Hother1).
  exists r1, st1.
  destruct (store_ip_in_mongodb_cases E ip is_private st1)
    as [(c & Hf & _)|[(Hf & _)|[(_ & Hr & _)|(_ & Hr & Heq)]]];
    try (rewrite Hlen in Hf; congruence).
  - rewrite Hr in Hrec1. discriminate.
  - eexists. split; [exact H1|]. split; [exact Heq|]. split; [exact Hr1|].
    rewrite collection_of_set_collection, Bool.eqb_reflx.
    split; [exact Hrec1|]. split; [reflexivity|].
    rewrite <- Hother1. destruct is_private; reflexivity.
Qed.

Lemma store_twice_witness :
  exists st1 st2,
    store_ip_in_mongodb env_rescan (py "192.168.1.10") true (IPProcessor_init env_rescan)
    = (Ok false, st1)
    /\ store_ip_in_mongodb env_rescan (py "192.168.1.10") true st1 = (Ok false, st2)
    /\ length (records_for (py "192.168.1.10") (collection_of true st2)) = 1%nat.
Proof.
  destruct (store_twice env_rescan (py "192.168.1.10") true (IPProcessor_init env_rescan))
    as (r1 & st1 & st2 & H1 & H2 & Hr1 & H3 & _).
  - reflexivity.
  - reflexivity.
  - vm_compute. lia.
  - exists st1, st2. split; [|split; [exact H2|exact H3]].
    destruct r1; [|exact H1].
    exfalso. pose proof (proj1 Hr1 eq_refl) as Hnil. vm_compute in Hnil. discriminate.
Defined.
